(** * ImageToSticker: the pixel and state engine of [image_processor.py]

    A shallow embedding of the [ImageProcessorApp] methods that edit pixels
    and keep the editing state: the threshold segmenter
    ([remove_white_background]), the magic wand ([flood_fill_transparent]),
    the undo history ([save_edit_state], [undo_edit]), the dimension entries
    ([on_scale_entry], [on_width_change], [on_height_change],
    [update_dimensions_from_scale]), the reprocessing step
    ([process_image], [update_preview]), the click handler
    ([on_canvas_click], [canvas_to_image_coords]), the loader
    ([load_image]) and the checkerboard of the preview
    ([create_checkerboard]).

    Conventions.
    - Python [int] is [Z].  Python [float] is an interface, [PyFloat], with
      two instances: [binary64] (IEEE doubles, what CPython runs) and
      [exactQ] (exact rationals, the arithmetic the formulas of the
      specification are written in).
    - PIL images are mutable objects.  They live in a [heap]; the attributes
      of the application hold references ([loc]), so that [copy()] and
      in-place pixel stores can be told apart.
    - Widgets that only display something (buttons, info label, canvas) are
      left out; the labels and entries that the handlers write are kept. *)

From Stdlib Require Import ZArith QArith Qround Qabs Floats Lia Lqa.
From stdpp Require Import gmap list.

Local Open Scope Z_scope.

(* ===================================================================== *)
(** ** Python floats *)
(* ===================================================================== *)

(** The float operations the handlers use.  [py_round x n] is
    [round(x, n)], [py_int x] is [int(x)], [of_int] is the conversion Python
    applies to an [int] operand of mixed arithmetic. *)
Class PyFloat := {
  pyfloat : Type;
  of_int : Z -> pyfloat;
  fmul : pyfloat -> pyfloat -> pyfloat;
  fdiv : pyfloat -> pyfloat -> pyfloat;
  flt : pyfloat -> pyfloat -> bool;
  fle : pyfloat -> pyfloat -> bool;
  py_round : pyfloat -> Z -> pyfloat;
  py_int : pyfloat -> Z;
}.

(** Round-half-to-even of a rational to an integer: the rule of Python's
    [round]. *)
Definition half_even (q : Q) : Z :=
  let f := Qfloor q in
  match Qcompare (q - inject_Z f) (1 # 2) with
  | Lt => f
  | Gt => f + 1
  | Eq => if Z.even f then f else f + 1
  end.

(** *** Exact rationals *)

Definition Q_round (q : Q) (ndigits : Z) : Q :=
  let p := Z.to_pos (10 ^ ndigits) in
  Qmake (half_even (q * inject_Z (Zpos p))) p.

Definition Q_int (q : Q) : Z := Z.quot (Qnum q) (Zpos (Qden q)).

Definition exactQ : PyFloat := {|
  pyfloat := Q;
  of_int := inject_Z;
  fmul := Qmult;
  fdiv := Qdiv;
  flt := fun a b => negb (Qle_bool b a);
  fle := Qle_bool;
  py_round := Q_round;
  py_int := Q_int;
|}.

(** *** IEEE binary64 *)

(** The double nearest to [n / d] (ties to even). *)
Definition b64_of_ratio (n : Z) (d : positive) : PrimFloat.float :=
  match n with
  | Z0 => PrimFloat.zero
  | Zpos p =>
      SF2Prim (SFdiv prec emax (S754_finite false p 0) (S754_finite false d 0))
  | Zneg p =>
      SF2Prim (SFdiv prec emax (S754_finite true p 0) (S754_finite false d 0))
  end.

(** The exact value of a finite double. *)
Definition b64_to_Q (x : PrimFloat.float) : option Q :=
  match Prim2SF x with
  | S754_zero _ => Some 0%Q
  | S754_finite s m e =>
      let v := (inject_Z (Zpos m) * Qpower 2 e)%Q in
      Some (if s then Qopp v else v)
  | _ => None
  end.

(** [round(x, ndigits)] of CPython: the exact value of [x] is rounded
    half-to-even to [ndigits] decimals and the decimal is converted back to
    the nearest double; zeros, infinities and NaN are returned as they are,
    and a result of zero keeps the sign of [x]. *)
Definition b64_round (x : PrimFloat.float) (ndigits : Z) : PrimFloat.float :=
  match b64_to_Q x, Prim2SF x with
  | Some q, S754_finite _ _ _ =>
      let p := Z.to_pos (10 ^ ndigits) in
      match half_even (Qred (q * inject_Z (Zpos p))) with
      | Z0 => PrimFloat.mul x PrimFloat.zero
      | n => b64_of_ratio n p
      end
  | _, _ => x
  end.

(** [int(x)]: truncation towards zero ([int] of an infinity or a NaN raises
    in Python; the handlers never reach it, the model answers 0). *)
Definition b64_int (x : PrimFloat.float) : Z :=
  match b64_to_Q x with
  | Some q => Q_int (Qred q)
  | None => 0
  end.

Definition binary64 : PyFloat := {|
  pyfloat := PrimFloat.float;
  of_int := fun z => b64_of_ratio z 1;
  fmul := PrimFloat.mul;
  fdiv := PrimFloat.div;
  flt := PrimFloat.ltb;
  fle := PrimFloat.leb;
  py_round := b64_round;
  py_int := b64_int;
|}.

(* ===================================================================== *)
(** ** Pixels and images *)
(* ===================================================================== *)

(** The two colour modes of the data model. *)
Inductive Mode := RGB | RGBA.

(** A pixel as pixel access returns it: a 3-tuple or a 4-tuple of bands. *)
Inductive Pixel :=
| Px3 (r g b : Z)
| Px4 (r g b a : Z).

(** [len(c)], [c[0]], [c[1]], [c[2]] and, for a 4-tuple, [c[3]]. *)
Definition px_len (c : Pixel) : Z :=
  match c with Px3 _ _ _ => 3 | Px4 _ _ _ _ => 4 end.
Definition px_r (c : Pixel) : Z :=
  match c with Px3 r _ _ => r | Px4 r _ _ _ => r end.
Definition px_g (c : Pixel) : Z :=
  match c with Px3 _ g _ => g | Px4 _ g _ _ => g end.
Definition px_b (c : Pixel) : Z :=
  match c with Px3 _ _ b => b | Px4 _ _ b _ => b end.
Definition px_alpha (c : Pixel) : option Z :=
  match c with Px3 _ _ _ => None | Px4 _ _ _ a => Some a end.

(** An image: mode, size and the pixels in row-major order, as [getdata()]
    lists them. *)
Record Image := {
  mode : Mode;
  width : Z;
  height : Z;
  data : list Pixel;
}.

(** The buffer has one sample per pixel of a non-empty raster. *)
Definition image_ok (img : Image) : Prop :=
  0 < width img /\ 0 < height img /\
  Z.of_nat (length (data img)) = width img * height img.

Definition pixel_of_mode (m : Mode) (c : Pixel) : Prop :=
  match m, c with
  | RGB, Px3 _ _ _ => True
  | RGBA, Px4 _ _ _ _ => True
  | _, _ => False
  end.

(** Every pixel has the bands of the image's mode. *)
Definition image_wf (img : Image) : Prop :=
  image_ok img /\ Forall (pixel_of_mode (mode img)) (data img).

Definition Mode_eqb (a b : Mode) : bool :=
  match a, b with RGB, RGB | RGBA, RGBA => true | _, _ => false end.

(** [0 <= x < width] and [0 <= y < height]. *)
Definition in_bounds (w h : Z) (p : Z * Z) : bool :=
  (0 <=? fst p) && (fst p <? w) && (0 <=? snd p) && (snd p <? h).

Definition px_index (w : Z) (p : Z * Z) : nat := Z.to_nat (snd p * w + fst p).

(** Pixel access [pixels[x, y]] of PIL: a negative coordinate counts from
    the far edge, and a coordinate that is still outside raises
    [IndexError] ([None]). *)
Definition pil_wrap (w h : Z) (p : Z * Z) : Z * Z :=
  (if fst p <? 0 then w + fst p else fst p,
   if snd p <? 0 then h + snd p else snd p).

Definition pixel_get (w h : Z) (px : list Pixel) (p : Z * Z) : option Pixel :=
  let q := pil_wrap w h p in
  if in_bounds w h q then px !! px_index w q else None.

Definition pixel_set (w h : Z) (px : list Pixel) (p : Z * Z) (c : Pixel)
  : option (list Pixel) :=
  let q := pil_wrap w h p in
  if in_bounds w h q then Some (<[px_index w q := c]> px) else None.

Definition getpixel (img : Image) (p : Z * Z) : option Pixel :=
  pixel_get (width img) (height img) (data img) p.

(** [img.convert("RGBA")]: an RGB pixel gets alpha 255, a pixel that has
    an alpha keeps it.  This is PIL's conversion between the two modes of
    the data model. *)
Definition px_to_rgba (c : Pixel) : Pixel :=
  match c with
  | Px3 r g b => Px4 r g b 255
  | Px4 _ _ _ _ => c
  end.

Definition convert_rgba (img : Image) : Image :=
  {| mode := RGBA; width := width img; height := height img;
     data := px_to_rgba <$> data img |}.

(* ===================================================================== *)
(** ** Threshold segmenter: [remove_white_background] *)
(* ===================================================================== *)

(** The body of the loop over [img.getdata()]. *)
Definition white_to_transparent (threshold : Z) (item : Pixel) : Pixel :=
  if (threshold <=? px_r item) && (threshold <=? px_g item)
     && (threshold <=? px_b item)
  then Px4 255 255 255 0
  else item.

Definition remove_white_background (threshold : Z) (img : Image) : Image :=
  let img := if Mode_eqb (mode img) RGBA then img else convert_rgba img in
  {| mode := mode img; width := width img; height := height img;
     data := white_to_transparent threshold <$> data img |}.

(* ===================================================================== *)
(** ** Magic wand: the breadth-first loop of [flood_fill_transparent] *)
(* ===================================================================== *)

Inductive error := IndexError | OutOfFuel.

Inductive result (A : Type) :=
| Ok (a : A)
| Err (e : error).
Arguments Ok {A} a.
Arguments Err {A} e.

(** The local variables of the loop.  [accessed] is a ghost log of the
    coordinates handed to pixel access, in reverse order. *)
Record FillState := {
  pixels : list Pixel;
  visited : gset (Z * Z);
  queue : list (Z * Z);
  pixels_changed : Z;
  accessed : list (Z * Z);
}.

(** [color_matches(c1, c2)] for the current [tolerance]. *)
Definition color_matches (tolerance : Z) (c1 c2 : Pixel) : bool :=
  (Z.abs (px_r c1 - px_r c2) <=? tolerance)
  && (Z.abs (px_g c1 - px_g c2) <=? tolerance)
  && (Z.abs (px_b c1 - px_b c2) <=? tolerance).

(** [len(c) == 4 and c[3] == 0]. *)
Definition is_transparent (c : Pixel) : bool :=
  (px_len c =? 4)
  && (match px_alpha c with Some a => a =? 0 | None => false end).

(** [x < 0 or x >= img_width or y < 0 or y >= img_height]. *)
Definition outside_image (w h : Z) (p : Z * Z) : bool :=
  (fst p <? 0) || (w <=? fst p) || (snd p <? 0) || (h <=? snd p).

Definition neighbours (p : Z * Z) : list (Z * Z) :=
  [(fst p + 1, snd p); (fst p - 1, snd p);
   (fst p, snd p + 1); (fst p, snd p - 1)].

(** One turn of the [while queue] loop after [queue.popleft()] returned
    [p]; [s] holds the rest of the queue. *)
Definition fill_visit (w h tolerance : Z) (target_color : Pixel)
    (p : Z * Z) (s : FillState) : result FillState :=
  if bool_decide (p ∈ visited s) then Ok s
  else if outside_image w h p then Ok s
  else
    match pixel_get w h (pixels s) p with
    | None => Err IndexError
    | Some current_color =>
        if is_transparent current_color then
          Ok {| pixels := pixels s; visited := {[p]} ∪ visited s;
                queue := queue s; pixels_changed := pixels_changed s;
                accessed := p :: accessed s |}
        else if negb (color_matches tolerance current_color target_color) then
          Ok {| pixels := pixels s; visited := {[p]} ∪ visited s;
                queue := queue s; pixels_changed := pixels_changed s;
                accessed := p :: accessed s |}
        else
          match pixel_set w h (pixels s) p
                  (Px4 (px_r current_color) (px_g current_color)
                       (px_b current_color) 0) with
          | None => Err IndexError
          | Some px =>
              Ok {| pixels := px; visited := {[p]} ∪ visited s;
                    queue := queue s ++ neighbours p;
                    pixels_changed := pixels_changed s + 1;
                    accessed := p :: p :: accessed s |}
          end
    end.

Definition pop_queue (s : FillState) (rest : list (Z * Z)) : FillState :=
  {| pixels := pixels s; visited := visited s; queue := rest;
     pixels_changed := pixels_changed s; accessed := accessed s |}.

(** [while queue: ...], with the number of turns bounded by [fuel]. *)
Fixpoint fill_loop (fuel : nat) (w h tolerance : Z) (target_color : Pixel)
    (s : FillState) : result FillState :=
  match queue s with
  | [] => Ok s
  | p :: rest =>
      match fuel with
      | O => Err OutOfFuel
      | S fuel' =>
          match fill_visit w h tolerance target_color p (pop_queue s rest) with
          | Ok s' => fill_loop fuel' w h tolerance target_color s'
          | Err e => Err e
          end
      end
  end.

(** The number of pixels that are not fully transparent.  Every turn of the
    loop either shortens the queue or clears one such pixel and adds four
    coordinates, so [4 * opaque_count + length queue] turns are enough. *)
Definition opaque_count (px : list Pixel) : nat :=
  length (filter (fun c => is_transparent c = false) px).

Definition fill_fuel (px : list Pixel) : nat := 4 * opaque_count px + 2.

(** The state the loop starts from: [visited = set()],
    [queue = deque([(start_x, start_y)])], [pixels_changed = 0]; the start
    pixel has been read once, for [target_color]. *)
Definition fill_init (px : list Pixel) (start : Z * Z) : FillState :=
  {| pixels := px; visited := ∅; queue := [start]; pixels_changed := 0;
     accessed := [start] |}.

(* ===================================================================== *)
(** ** The application state *)
(* ===================================================================== *)

(** References to image objects: an index into the heap.  Objects are never
    freed, so a new object takes the next index. *)
Definition loc := nat.

(** [bg_removal_method]: the string ["ai"] or ["threshold"]. *)
Inductive Method := ai | threshold.

(** The texts [status_label] is set to. *)
Inductive Status :=
| NoStatus                  (* the empty text *)
| AlreadyTransparent        (* Area is already transparent *)
| Removed (n : Z)           (* Removed n pixels *)
| UndoSuccessful            (* Undo successful *)
| ProcessingWithAI          (* Processing with AI... *)
| AIError.                  (* AI error: ... *)

(** The history keeps at most [max_history] snapshots. *)
Definition max_history : nat := 20.

(** [if len(history) >= max_history: history.pop(0)] and then
    [history.append(snapshot)]. *)
Definition history_push {A : Type} (history : list A) (snapshot : A) : list A :=
  (if (max_history <=? length history)%nat then drop 1 history else history)
  ++ [snapshot].

(** [history.pop()]: the last element and the list without it. *)
Definition history_pop {A : Type} (history : list A) : option (A * list A) :=
  match reverse history with
  | [] => None
  | x :: r => Some (x, reverse r)
  end.

Section ImageProcessorApp.
Context {PF : PyFloat}.

(** The text of an entry widget as [float(entry.get())] reads it: a number,
    or a text for which [float] raises [ValueError].  [str(x)] written into
    an entry reads back as [x]. *)
Inductive EntryText :=
| Numeric (v : pyfloat)
| NotNumeric.

(** The attributes of [ImageProcessorApp].  [processed_image] and the
    entries of [edit_history] are references into [heap]: these objects are
    written in place.  [original_image] and [bg_removed_cache] are only read
    and copied, and are held by value. *)
Record App := {
  heap : list Image;
  original_image : option Image;
  processed_image : option loc;
  bg_removed_cache : option Image;
  edit_history : list loc;
  magic_wand_tolerance : Z;
  scale_factor : pyfloat;
  white_threshold : Z;
  remove_background : bool;
  bg_removal_method : Method;
  width_inches : pyfloat;
  height_inches : pyfloat;
  dpi : Z;
  lock_aspect_ratio : bool;
  updating_dimensions : bool;
  processing : bool;
  scale_entry : EntryText;
  width_entry : EntryText;
  height_entry : EntryText;
  scale_label : pyfloat;
  threshold_label : Z;
  status_label : Status;
}.

Definition set_heap (v : list Image) (st : App) : App :=
  Build_App v (original_image st) (processed_image st) (bg_removed_cache st)
    (edit_history st) (magic_wand_tolerance st) (scale_factor st)
    (white_threshold st) (remove_background st) (bg_removal_method st)
    (width_inches st) (height_inches st) (dpi st) (lock_aspect_ratio st)
    (updating_dimensions st) (processing st) (scale_entry st) (width_entry st)
    (height_entry st) (scale_label st) (threshold_label st) (status_label st).
Definition set_processed_image (v : option loc) (st : App) : App :=
  Build_App (heap st) (original_image st) v (bg_removed_cache st)
    (edit_history st) (magic_wand_tolerance st) (scale_factor st)
    (white_threshold st) (remove_background st) (bg_removal_method st)
    (width_inches st) (height_inches st) (dpi st) (lock_aspect_ratio st)
    (updating_dimensions st) (processing st) (scale_entry st) (width_entry st)
    (height_entry st) (scale_label st) (threshold_label st) (status_label st).
Definition set_bg_removed_cache (v : option Image) (st : App) : App :=
  Build_App (heap st) (original_image st) (processed_image st) v
    (edit_history st) (magic_wand_tolerance st) (scale_factor st)
    (white_threshold st) (remove_background st) (bg_removal_method st)
    (width_inches st) (height_inches st) (dpi st) (lock_aspect_ratio st)
    (updating_dimensions st) (processing st) (scale_entry st) (width_entry st)
    (height_entry st) (scale_label st) (threshold_label st) (status_label st).
Definition set_edit_history (v : list loc) (st : App) : App :=
  Build_App (heap st) (original_image st) (processed_image st)
    (bg_removed_cache st) v (magic_wand_tolerance st) (scale_factor st)
    (white_threshold st) (remove_background st) (bg_removal_method st)
    (width_inches st) (height_inches st) (dpi st) (lock_aspect_ratio st)
    (updating_dimensions st) (processing st) (scale_entry st) (width_entry st)
    (height_entry st) (scale_label st) (threshold_label st) (status_label st).
Definition set_scale_factor (v : pyfloat) (st : App) : App :=
  Build_App (heap st) (original_image st) (processed_image st)
    (bg_removed_cache st) (edit_history st) (magic_wand_tolerance st) v
    (white_threshold st) (remove_background st) (bg_removal_method st)
    (width_inches st) (height_inches st) (dpi st) (lock_aspect_ratio st)
    (updating_dimensions st) (processing st) (scale_entry st) (width_entry st)
    (height_entry st) (scale_label st) (threshold_label st) (status_label st).
Definition set_white_threshold (v : Z) (st : App) : App :=
  Build_App (heap st) (original_image st) (processed_image st)
    (bg_removed_cache st) (edit_history st) (magic_wand_tolerance st)
    (scale_factor st) v (remove_background st) (bg_removal_method st)
    (width_inches st) (height_inches st) (dpi st) (lock_aspect_ratio st)
    (updating_dimensions st) (processing st) (scale_entry st) (width_entry st)
    (height_entry st) (scale_label st) (threshold_label st) (status_label st).
Definition set_remove_background (v : bool) (st : App) : App :=
  Build_App (heap st) (original_image st) (processed_image st)
    (bg_removed_cache st) (edit_history st) (magic_wand_tolerance st)
    (scale_factor st) (white_threshold st) v (bg_removal_method st)
    (width_inches st) (height_inches st) (dpi st) (lock_aspect_ratio st)
    (updating_dimensions st) (processing st) (scale_entry st) (width_entry st)
    (height_entry st) (scale_label st) (threshold_label st) (status_label st).
Definition set_bg_removal_method (v : Method) (st : App) : App :=
  Build_App (heap st) (original_image st) (processed_image st)
    (bg_removed_cache st) (edit_history st) (magic_wand_tolerance st)
    (scale_factor st) (white_threshold st) (remove_background st) v
    (width_inches st) (height_inches st) (dpi st) (lock_aspect_ratio st)
    (updating_dimensions st) (processing st) (scale_entry st) (width_entry st)
    (height_entry st) (scale_label st) (threshold_label st) (status_label st).
Definition set_width_inches (v : pyfloat) (st : App) : App :=
  Build_App (heap st) (original_image st) (processed_image st)
    (bg_removed_cache st) (edit_history st) (magic_wand_tolerance st)
    (scale_factor st) (white_threshold st) (remove_background st)
    (bg_removal_method st) v (height_inches st) (dpi st)
    (lock_aspect_ratio st) (updating_dimensions st) (processing st)
    (scale_entry st) (width_entry st) (height_entry st) (scale_label st)
    (threshold_label st) (status_label st).
Definition set_height_inches (v : pyfloat) (st : App) : App :=
  Build_App (heap st) (original_image st) (processed_image st)
    (bg_removed_cache st) (edit_history st) (magic_wand_tolerance st)
    (scale_factor st) (white_threshold st) (remove_background st)
    (bg_removal_method st) (width_inches st) v (dpi st) (lock_aspect_ratio st)
    (updating_dimensions st) (processing st) (scale_entry st) (width_entry st)
    (height_entry st) (scale_label st) (threshold_label st) (status_label st).
Definition set_dpi (v : Z) (st : App) : App :=
  Build_App (heap st) (original_image st) (processed_image st)
    (bg_removed_cache st) (edit_history st) (magic_wand_tolerance st)
    (scale_factor st) (white_threshold st) (remove_background st)
    (bg_removal_method st) (width_inches st) (height_inches st) v
    (lock_aspect_ratio st) (updating_dimensions st) (processing st)
    (scale_entry st) (width_entry st) (height_entry st) (scale_label st)
    (threshold_label st) (status_label st).
Definition set_lock_aspect_ratio (v : bool) (st : App) : App :=
  Build_App (heap st) (original_image st) (processed_image st)
    (bg_removed_cache st) (edit_history st) (magic_wand_tolerance st)
    (scale_factor st) (white_threshold st) (remove_background st)
    (bg_removal_method st) (width_inches st) (height_inches st) (dpi st) v
    (updating_dimensions st) (processing st) (scale_entry st) (width_entry st)
    (height_entry st) (scale_label st) (threshold_label st) (status_label st).
Definition set_updating_dimensions (v : bool) (st : App) : App :=
  Build_App (heap st) (original_image st) (processed_image st)
    (bg_removed_cache st) (edit_history st) (magic_wand_tolerance st)
    (scale_factor st) (white_threshold st) (remove_background st)
    (bg_removal_method st) (width_inches st) (height_inches st) (dpi st)
    (lock_aspect_ratio st) v (processing st) (scale_entry st) (width_entry st)
    (height_entry st) (scale_label st) (threshold_label st) (status_label st).
Definition set_processing (v : bool) (st : App) : App :=
  Build_App (heap st) (original_image st) (processed_image st)
    (bg_removed_cache st) (edit_history st) (magic_wand_tolerance st)
    (scale_factor st) (white_threshold st) (remove_background st)
    (bg_removal_method st) (width_inches st) (height_inches st) (dpi st)
    (lock_aspect_ratio st) (updating_dimensions st) v (scale_entry st)
    (width_entry st) (height_entry st) (scale_label st) (threshold_label st)
    (status_label st).
Definition set_scale_entry (v : EntryText) (st : App) : App :=
  Build_App (heap st) (original_image st) (processed_image st)
    (bg_removed_cache st) (edit_history st) (magic_wand_tolerance st)
    (scale_factor st) (white_threshold st) (remove_background st)
    (bg_removal_method st) (width_inches st) (height_inches st) (dpi st)
    (lock_aspect_ratio st) (updating_dimensions st) (processing st) v
    (width_entry st) (height_entry st) (scale_label st) (threshold_label st)
    (status_label st).
Definition set_width_entry (v : EntryText) (st : App) : App :=
  Build_App (heap st) (original_image st) (processed_image st)
    (bg_removed_cache st) (edit_history st) (magic_wand_tolerance st)
    (scale_factor st) (white_threshold st) (remove_background st)
    (bg_removal_method st) (width_inches st) (height_inches st) (dpi st)
    (lock_aspect_ratio st) (updating_dimensions st) (processing st)
    (scale_entry st) v (height_entry st) (scale_label st) (threshold_label st)
    (status_label st).
Definition set_height_entry (v : EntryText) (st : App) : App :=
  Build_App (heap st) (original_image st) (processed_image st)
    (bg_removed_cache st) (edit_history st) (magic_wand_tolerance st)
    (scale_factor st) (white_threshold st) (remove_background st)
    (bg_removal_method st) (width_inches st) (height_inches st) (dpi st)
    (lock_aspect_ratio st) (updating_dimensions st) (processing st)
    (scale_entry st) (width_entry st) v (scale_label st) (threshold_label st)
    (status_label st).
Definition set_scale_label (v : pyfloat) (st : App) : App :=
  Build_App (heap st) (original_image st) (processed_image st)
    (bg_removed_cache st) (edit_history st) (magic_wand_tolerance st)
    (scale_factor st) (white_threshold st) (remove_background st)
    (bg_removal_method st) (width_inches st) (height_inches st) (dpi st)
    (lock_aspect_ratio st) (updating_dimensions st) (processing st)
    (scale_entry st) (width_entry st) (height_entry st) v (threshold_label st)
    (status_label st).
Definition set_threshold_label (v : Z) (st : App) : App :=
  Build_App (heap st) (original_image st) (processed_image st)
    (bg_removed_cache st) (edit_history st) (magic_wand_tolerance st)
    (scale_factor st) (white_threshold st) (remove_background st)
    (bg_removal_method st) (width_inches st) (height_inches st) (dpi st)
    (lock_aspect_ratio st) (updating_dimensions st) (processing st)
    (scale_entry st) (width_entry st) (height_entry st) (scale_label st) v
    (status_label st).
Definition set_status_label (v : Status) (st : App) : App :=
  Build_App (heap st) (original_image st) (processed_image st)
    (bg_removed_cache st) (edit_history st) (magic_wand_tolerance st)
    (scale_factor st) (white_threshold st) (remove_background st)
    (bg_removal_method st) (width_inches st) (height_inches st) (dpi st)
    (lock_aspect_ratio st) (updating_dimensions st) (processing st)
    (scale_entry st) (width_entry st) (height_entry st) (scale_label st)
    (threshold_label st) v.

(** The object [processed_image] refers to.  A reference the application
    holds always points into the heap; the answer is [None] only when
    [processed_image] is [None]. *)
Definition processed (st : App) : option (loc * Image) :=
  match processed_image st with
  | None => None
  | Some l =>
      match heap st !! l with
      | None => None
      | Some img => Some (l, img)
      end
  end.

(** *** Undo history *)

(** [save_edit_state]: the snapshot is [processed_image.copy()], a new
    object. *)
Definition save_edit_state (st : App) : App :=
  match processed st with
  | None => st
  | Some (_, img) =>
      set_heap (heap st ++ [img])
        (set_edit_history
           (history_push (edit_history st) (length (heap st))) st)
  end.

(** [undo_edit]: the popped reference becomes [processed_image]. *)
Definition undo_edit (st : App) : App :=
  match history_pop (edit_history st) with
  | None => st
  | Some (snapshot, rest) =>
      set_status_label UndoSuccessful
        (set_edit_history rest (set_processed_image (Some snapshot) st))
  end.

(** *** Magic wand *)

Definition with_data (img : Image) (px : list Pixel) : Image :=
  {| mode := mode img; width := width img; height := height img; data := px |}.

(** [flood_fill_transparent(start_x, start_y)].  The pixel stores of the
    loop go to the object [processed_image] refers to; the model writes the
    final buffer back to that reference. *)
Definition flood_fill_transparent (st : App) (start : Z * Z) : result App :=
  match processed st with
  | None => Ok st
  | Some (_, img0) =>
      let st := save_edit_state st in
      let st :=
        if Mode_eqb (mode img0) RGBA then st
        else set_processed_image (Some (length (heap st)))
               (set_heap (heap st ++ [convert_rgba img0]) st) in
      match processed st with
      | None => Ok st
      | Some (l, img) =>
          let img_width := width img in
          let img_height := height img in
          match getpixel img start with
          | None => Err IndexError
          | Some target_color =>
              if is_transparent target_color then
                let history :=
                  match history_pop (edit_history st) with
                  | Some (_, rest) => rest
                  | None => edit_history st
                  end in
                Ok (set_status_label AlreadyTransparent
                      (set_edit_history history st))
              else
                let tolerance := magic_wand_tolerance st in
                match fill_loop (fill_fuel (data img)) img_width img_height
                        tolerance target_color (fill_init (data img) start) with
                | Err e => Err e
                | Ok s =>
                    Ok (set_status_label (Removed (pixels_changed s))
                          (set_heap
                             (<[l := with_data img (pixels s)]> (heap st)) st))
                end
          end
      end
  end.

(** *** Dimension entries *)

(** The literal [0.1]. *)
Definition lit_0_1 : pyfloat := fdiv (of_int 1) (of_int 10).

(** [update_dimensions_from_scale]. *)
Definition update_dimensions_from_scale (st : App) : App :=
  match original_image st with
  | None => st
  | Some orig =>
      if updating_dimensions st then st
      else
        let width_px := width orig in
        let height_px := height orig in
        let scale := scale_factor st in
        let dpi := dpi st in
        let new_width_inches :=
          py_round (fdiv (fmul (of_int width_px) scale) (of_int dpi)) 2 in
        let new_height_inches :=
          py_round (fdiv (fmul (of_int height_px) scale) (of_int dpi)) 2 in
        set_updating_dimensions false
          (set_height_entry (Numeric new_height_inches)
             (set_width_entry (Numeric new_width_inches)
                (set_height_inches new_height_inches
                   (set_width_inches new_width_inches st))))
  end.

(** [on_scale_change(value)], the command of the scale slider. *)
Definition on_scale_change (value : pyfloat) (st : App) : App :=
  let scale := py_round value 1 in
  update_dimensions_from_scale
    (set_scale_entry (Numeric scale) (set_scale_label scale st)).

(** [on_scale_entry]. *)
Definition on_scale_entry (st : App) : App :=
  match scale_entry st with
  | NotNumeric => st
  | Numeric scale =>
      let scale :=
        if flt scale lit_0_1 then lit_0_1
        else if flt (of_int 20) scale then of_int 20
        else scale in
      update_dimensions_from_scale
        (set_scale_label scale (set_scale_factor scale st))
  end.

(** [on_width_change]. *)
Definition on_width_change (st : App) : App :=
  match original_image st with
  | None => st
  | Some orig =>
      if updating_dimensions st then st
      else
        match width_entry st with
        | NotNumeric => set_updating_dimensions false st
        | Numeric new_width =>
            if fle new_width (of_int 0) then st
            else
              let st := set_width_inches new_width st in
              let st :=
                if lock_aspect_ratio st then
                  let aspect_ratio :=
                    fdiv (of_int (height orig)) (of_int (width orig)) in
                  let new_height := py_round (fmul new_width aspect_ratio) 2 in
                  set_height_entry (Numeric new_height)
                    (set_height_inches new_height st)
                else st in
              let new_scale :=
                fdiv (fmul new_width (of_int (dpi st))) (of_int (width orig)) in
              set_updating_dimensions false
                (set_scale_entry (Numeric (py_round new_scale 2))
                   (set_scale_label (py_round new_scale 2)
                      (set_scale_factor (py_round new_scale 2) st)))
        end
  end.

(** [on_height_change]. *)
Definition on_height_change (st : App) : App :=
  match original_image st with
  | None => st
  | Some orig =>
      if updating_dimensions st then st
      else
        match height_entry st with
        | NotNumeric => set_updating_dimensions false st
        | Numeric new_height =>
            if fle new_height (of_int 0) then st
            else
              let st := set_height_inches new_height st in
              let st :=
                if lock_aspect_ratio st then
                  let aspect_ratio :=
                    fdiv (of_int (width orig)) (of_int (height orig)) in
                  let new_width := py_round (fmul new_height aspect_ratio) 2 in
                  set_width_entry (Numeric new_width)
                    (set_width_inches new_width st)
                else st in
              let new_scale :=
                fdiv (fmul new_height (of_int (dpi st)))
                  (of_int (height orig)) in
              set_updating_dimensions false
                (set_scale_entry (Numeric (py_round new_scale 2))
                   (set_scale_label (py_round new_scale 2)
                      (set_scale_factor (py_round new_scale 2) st)))
        end
  end.

(** [on_threshold_change(value)]: only the label is written. *)
Definition on_threshold_change (value : pyfloat) (st : App) : App :=
  set_threshold_label (py_int value) st.

(** [on_method_change]: the cache of the AI result is dropped. *)
Definition on_method_change (st : App) : App :=
  set_bg_removed_cache None st.

(** *** Reprocessing *)

Section Collaborators.
(** What the code calls and does not define: the import flag
    [AI_AVAILABLE], [bg.remove] of the optional backend ([None] when it
    raises) and PIL's [resize] with the Lanczos filter. *)
Variable AI_AVAILABLE : bool.
Variable bg_remove : Image -> option Image.
Variable resize : Image -> Z -> Z -> Image.

(** [remove_background_ai(img)]. *)
Definition remove_background_ai (st : App) (img : Image) : App * Image :=
  if negb AI_AVAILABLE then (st, img)
  else
    match bg_removed_cache st with
    | Some cached => (st, cached)
    | None =>
        let st := set_status_label ProcessingWithAI st in
        match bg_remove img with
        | Some res =>
            (set_status_label NoStatus
               (set_bg_removed_cache (Some res) st), res)
        | None =>
            (set_status_label AIError st,
             remove_white_background (white_threshold st) img)
        end
    end.

Definition Method_eqb (a b : Method) : bool :=
  match a, b with ai, ai | threshold, threshold => true | _, _ => false end.

(** [process_image]: the result is a new image, or [None] without an
    original. *)
Definition process_image (st : App) : App * option Image :=
  match original_image st with
  | None => (st, None)
  | Some orig =>
      let img := orig in
      let '(st, img) :=
        if remove_background st then
          if Method_eqb (bg_removal_method st) ai && AI_AVAILABLE
          then remove_background_ai st img
          else (st, remove_white_background (white_threshold st) img)
        else (st, img) in
      let target_width := py_int (fmul (width_inches st) (of_int (dpi st))) in
      let target_height := py_int (fmul (height_inches st) (of_int (dpi st))) in
      let img :=
        if (0 <? target_width) && (0 <? target_height)
        then resize img target_width target_height
        else img in
      (st, Some img)
  end.

(** [update_preview], up to the assignment of [processed_image]; the rest
    of the method draws the preview. *)
Definition update_preview (st : App) : App :=
  match original_image st with
  | None => st
  | Some _ =>
      if processing st then st
      else
        let st := set_edit_history [] (set_processing true st) in
        let '(st, img) := process_image st in
        match img with
        | None => set_processing false (set_processed_image None st)
        | Some img =>
            set_processing false
              (set_processed_image (Some (length (heap st)))
                 (set_heap (heap st ++ [img]) st))
        end
  end.

(** [on_bg_toggle]. *)
Definition on_bg_toggle (st : App) : App := update_preview st.

(** The controls, as [setup_controls_panel] wires them: Tk first writes the
    variable bound to the widget, then calls the widget's command. *)
Inductive Event :=
| MethodRadio (m : Method)          (* variable=bg_removal_method *)
| ThresholdSlider (value : pyfloat) (* variable=white_threshold *)
| ScaleSlider (value : pyfloat)     (* variable=scale_factor *)
| ScaleEntry (text : EntryText)     (* Return or FocusOut in scale_entry *)
| BackgroundCheck                   (* variable=remove_background *)
| DpiCombo (value : Z)              (* textvariable=dpi *)
| UpdatePreviewButton.              (* command=update_preview *)

Definition write_variable (e : Event) (st : App) : App :=
  match e with
  | MethodRadio m => set_bg_removal_method m st
  | ThresholdSlider value => set_white_threshold (py_int value) st
  | ScaleSlider value => set_scale_factor value st
  | ScaleEntry text => set_scale_entry text st
  | BackgroundCheck => set_remove_background (negb (remove_background st)) st
  | DpiCombo value => set_dpi value st
  | UpdatePreviewButton => st
  end.

Definition command (e : Event) (st : App) : App :=
  match e with
  | MethodRadio _ => on_method_change st
  | ThresholdSlider value => on_threshold_change value st
  | ScaleSlider value => on_scale_change value st
  | ScaleEntry _ => on_scale_entry st
  | BackgroundCheck => on_bg_toggle st
  | DpiCombo _ | UpdatePreviewButton => update_preview st
  end.

Definition handle (e : Event) (st : App) : App :=
  command e (write_variable e st).

(** The controls whose command is [update_preview]. *)
Definition reprocesses (e : Event) : bool :=
  match e with
  | BackgroundCheck | DpiCombo _ | UpdatePreviewButton => true
  | _ => false
  end.

(** The last step of [process_image]: the resize to the target size. *)
Definition fit_target (st : App) (img : Image) : Image :=
  let target_width := py_int (fmul (width_inches st) (of_int (dpi st))) in
  let target_height := py_int (fmul (height_inches st) (of_int (dpi st))) in
  if (0 <? target_width) && (0 <? target_height)
  then resize img target_width target_height
  else img.

End Collaborators.
End ImageProcessorApp.

(* ===================================================================== *)
(** ** The preview, the click handler and the loader *)
(* ===================================================================== *)

(** [range(start, stop, step)].  A step of 0 raises [ValueError] in
    Python; the model answers the empty list and the code below is only
    stated for positive steps. *)
Definition py_range (start stop step : Z) : list Z :=
  if 0 <? step then
    (fun i => start + i * step) <$> seqZ 0 ((stop - start + step - 1) / step)
  else if step <? 0 then
    (fun i => start + i * step) <$> seqZ 0 ((start - stop - step - 1) / (- step))
  else [].

(** A [for] loop whose body may raise. *)
Fixpoint for_each {A S : Type} (body : A -> S -> result S) (l : list A)
    (s : S) : result S :=
  match l with
  | [] => Ok s
  | a :: l =>
      match body a s with
      | Ok s' => for_each body l s'
      | Err e => Err e
      end
  end.

(** [Image.new("RGB", (width, height))]: every pixel black. *)
Definition image_new_rgb (w h : Z) : Image :=
  {| mode := RGB; width := w; height := h;
     data := replicate (Z.to_nat (w * h)) (Px3 0 0 0) |}.

(** [img.putpixel((x, y), color)]. *)
Definition putpixel (p : Z * Z) (color : Pixel) (img : Image) : result Image :=
  match pixel_set (width img) (height img) (data img) p color with
  | Some px =>
      Ok {| mode := mode img; width := width img; height := height img;
            data := px |}
  | None => Err IndexError
  end.

(** [create_checkerboard(size, square_size)]; the callers leave
    [square_size] at its default, 10. *)
Definition create_checkerboard (size : Z * Z) (square_size : Z)
  : result Image :=
  let width := fst size in
  let height := snd size in
  let checker := image_new_rgb width height in
  for_each (fun y =>
    for_each (fun x =>
      let color :=
        if (x / square_size + y / square_size) mod 2 =? 0
        then Px3 200 200 200 else Px3 255 255 255 in
      for_each (fun dy =>
        for_each (fun dx => putpixel (x + dx, y + dy) color)
          (py_range 0 (Z.min square_size (width - x)) 1))
        (py_range 0 (Z.min square_size (height - y)) 1))
      (py_range 0 width square_size))
    (py_range 0 height square_size)
    checker.

Section Preview.
Context {PF : PyFloat}.
(** Float subtraction, which the class above does not list. *)
Variable fsub : pyfloat -> pyfloat -> pyfloat.

(** [min(a, b, c)] on floats: the first of the smallest. *)
Definition py_min3 (a b c : pyfloat) : pyfloat :=
  let m := if flt b a then b else a in
  if flt c m then c else m.

(** [canvas_to_image_coords(canvas_x, canvas_y)] for a canvas of the given
    size; [None] stands for the pair [(None, None)]. *)
Definition canvas_to_image_coords (st : App)
    (canvas_width canvas_height : Z) (canvas_x canvas_y : pyfloat)
  : option (Z * Z) :=
  match processed st with
  | None => None
  | Some (_, img) =>
      let img_width := width img in
      let img_height := height img in
      let scale :=
        py_min3 (fdiv (of_int canvas_width) (of_int img_width))
          (fdiv (of_int canvas_height) (of_int img_height)) (of_int 1) in
      let display_width := py_int (fmul (of_int img_width) scale) in
      let display_height := py_int (fmul (of_int img_height) scale) in
      let offset_x := (canvas_width - display_width) / 2 in
      let offset_y := (canvas_height - display_height) / 2 in
      let img_x := py_int (fdiv (fsub canvas_x (of_int offset_x)) scale) in
      let img_y := py_int (fdiv (fsub canvas_y (of_int offset_y)) scale) in
      if (img_x <? 0) || (img_width <=? img_x) || (img_y <? 0)
         || (img_height <=? img_y)
      then None
      else Some (img_x, img_y)
  end.

(** [on_canvas_click(event)]: [magic_wand_mode] is the attribute of that
    name, [canvas_x] and [canvas_y] are what [canvasx] and [canvasy] give
    for the event. *)
Definition on_canvas_click (magic_wand_mode : bool)
    (canvas_width canvas_height : Z) (canvas_x canvas_y : pyfloat)
    (st : App) : result App :=
  if negb magic_wand_mode then Ok st
  else
    match processed_image st with
    | None => Ok st
    | Some _ =>
        match canvas_to_image_coords st canvas_width canvas_height
                canvas_x canvas_y with
        | None => Ok st
        | Some p => flood_fill_transparent st p
        end
    end.

End Preview.

Section Loader.
Context {PF : PyFloat}.
Variable AI_AVAILABLE : bool.
Variable bg_remove : Image -> option Image.
Variable resize : Image -> Z -> Z -> Image.

Definition set_original_image (v : option Image) (st : App) : App :=
  Build_App (heap st) v (processed_image st) (bg_removed_cache st)
    (edit_history st) (magic_wand_tolerance st) (scale_factor st)
    (white_threshold st) (remove_background st) (bg_removal_method st)
    (width_inches st) (height_inches st) (dpi st) (lock_aspect_ratio st)
    (updating_dimensions st) (processing st) (scale_entry st) (width_entry st)
    (height_entry st) (scale_label st) (threshold_label st) (status_label st).

(** [load_image(file_path)].  [opened] is what [Image.open(file_path)]
    gives, [None] when it raises.  The body runs inside
    [try ... except Exception]: an exception ends it and keeps the
    assignments made so far.  The division [width_px / dpi] raises for a
    dpi of 0. *)
Definition load_image (opened : option Image) (st : App) : App :=
  match opened with
  | None => st
  | Some img =>
      let st :=
        set_edit_history []
          (set_bg_removed_cache None (set_original_image (Some img) st)) in
      let width_px := width img in
      let height_px := height img in
      if dpi st =? 0 then st
      else
        let w := py_round (fdiv (of_int width_px) (of_int (dpi st))) 2 in
        let h := py_round (fdiv (of_int height_px) (of_int (dpi st))) 2 in
        let st :=
          set_height_entry (Numeric h)
            (set_width_entry (Numeric w)
               (set_height_inches h (set_width_inches w st))) in
        let st :=
          set_scale_entry (Numeric (of_int 1))
            (set_scale_label (of_int 1) (set_scale_factor (of_int 1) st)) in
        update_preview AI_AVAILABLE bg_remove resize st
  end.

Definition set_magic_wand_tolerance (v : Z) (st : App) : App :=
  Build_App (heap st) (original_image st) (processed_image st)
    (bg_removed_cache st) (edit_history st) v (scale_factor st)
    (white_threshold st) (remove_background st) (bg_removal_method st)
    (width_inches st) (height_inches st) (dpi st) (lock_aspect_ratio st)
    (updating_dimensions st) (processing st) (scale_entry st) (width_entry st)
    (height_entry st) (scale_label st) (threshold_label st) (status_label st).

(** What the user can do to a session, clicks on the canvas apart: use a
    control of the panel, confirm the width or the height entry (Return or
    FocusOut), press Undo, browse for a file, tick the lock checkbox, move
    the tolerance slider.  The last two only write their variable
    ([on_tolerance_change] sets a label that is not modelled).  The magic
    wand switch and the export buttons change nothing of the state
    modelled here but the status text. *)
Inductive Action :=
| Control (e : Event)
| WidthEntry (text : EntryText)
| HeightEntry (text : EntryText)
| Undo
| Load (opened : option Image)
| LockAspectCheck                     (* variable=lock_aspect_ratio *)
| ToleranceSlider (value : pyfloat).  (* variable=magic_wand_tolerance *)

Definition act (a : Action) (st : App) : App :=
  match a with
  | Control e => handle AI_AVAILABLE bg_remove resize e st
  | WidthEntry text => on_width_change (set_width_entry text st)
  | HeightEntry text => on_height_change (set_height_entry text st)
  | Undo => undo_edit st
  | Load opened => load_image opened st
  | LockAspectCheck =>
      set_lock_aspect_ratio (negb (lock_aspect_ratio st)) st
  | ToleranceSlider value => set_magic_wand_tolerance (py_int value) st
  end.

End Loader.

(* ===================================================================== *)
(** ** Specification vocabulary *)
(* ===================================================================== *)

(** The pixel [c] with its alpha set to 0 and its colour kept. *)
Definition cleared (c : Pixel) : Pixel := Px4 (px_r c) (px_g c) (px_b c) 0.

(** A pixel the fill may clear: inside the image, not fully transparent,
    and within [tolerance] of the target colour on every channel. *)
Definition fillable (w h : Z) (px : list Pixel) (tolerance : Z)
    (target_color : Pixel) (p : Z * Z) : bool :=
  in_bounds w h p &&
  match pixel_get w h px p with
  | Some c => negb (is_transparent c) && color_matches tolerance c target_color
  | None => false
  end.

(** 4-connectivity. *)
Definition adjacent (p q : Z * Z) : Prop := q ∈ neighbours p.

(** The region grown from [start]: what can be reached from it by steps
    between adjacent pixels, every pixel stepped on being fillable. *)
Inductive region (w h : Z) (px : list Pixel) (tolerance : Z)
    (target_color : Pixel) (start : Z * Z) : Z * Z -> Prop :=
| region_start : region w h px tolerance target_color start start
| region_grow p q :
    region w h px tolerance target_color start p ->
    adjacent p q ->
    fillable w h px tolerance target_color q = true ->
    region w h px tolerance target_color start q.

(** The number of positions at which the alpha of two buffers differs. *)
Fixpoint alpha_changes (old new : list Pixel) : Z :=
  match old, new with
  | c :: old, c' :: new =>
      (if decide (px_alpha c = px_alpha c') then 0 else 1)
      + alpha_changes old new
  | _, _ => 0
  end.

(** The bound on the turns the loop still takes. *)
Definition fill_measure (s : FillState) : nat :=
  4 * opaque_count (pixels s) + length (queue s).

(** The loop invariant, relative to the buffer [px0] the loop started on. *)
Record fill_inv (w h : Z) (px0 : list Pixel) (tolerance : Z)
    (target_color : Pixel) (start : Z * Z) (s : FillState) : Prop := {
  inv_length : length (pixels s) = length px0;
  inv_visited : forall p, p ∈ visited s -> in_bounds w h p = true;
  inv_pixels : forall p, in_bounds w h p = true ->
    pixel_get w h (pixels s) p =
      if bool_decide (p ∈ visited s)
         && fillable w h px0 tolerance target_color p
      then cleared <$> pixel_get w h px0 p
      else pixel_get w h px0 p;
  inv_sound : forall p, p ∈ visited s ->
    fillable w h px0 tolerance target_color p = true ->
    region w h px0 tolerance target_color start p;
  inv_queue : forall q, q ∈ queue s ->
    q = start \/
    exists p, region w h px0 tolerance target_color start p /\ adjacent p q;
  inv_closed : forall p q, p ∈ visited s ->
    fillable w h px0 tolerance target_color p = true ->
    adjacent p q -> in_bounds w h q = true ->
    q ∈ visited s \/ q ∈ queue s;
  inv_start : start ∈ visited s \/ start ∈ queue s;
  inv_count : pixels_changed s = alpha_changes px0 (pixels s);
  inv_accessed : forall p, p ∈ accessed s -> in_bounds w h p = true;
}.

(** The image the loop of [flood_fill_transparent] runs on (the buffer
    itself, or its conversion to RGBA) and the reference it is stored at
    (the converted image is the second object allocated by the call). *)
Definition fill_image (img0 : Image) : Image :=
  if Mode_eqb (mode img0) RGBA then img0 else convert_rgba img0.

Definition fill_loc {PF : PyFloat} (st : App) (l : loc) (img0 : Image) : loc :=
  if Mode_eqb (mode img0) RGBA then l else S (length (heap st)).

(** A scale typed into the scale entry, then the width it produced
    confirmed in the width entry: the scale factor that comes back. *)
Definition scale_round_trip {PF : PyFloat} (st : App) (s : pyfloat) : pyfloat :=
  scale_factor
    (on_width_change (on_scale_entry (set_scale_entry (Numeric s) st))).

(** The colour [create_checkerboard] gives the pixel [p]. *)
Definition checker_color (square_size : Z) (p : Z * Z) : Pixel :=
  if (fst p / square_size + snd p / square_size) mod 2 =? 0
  then Px3 200 200 200 else Px3 255 255 255.

(** The references of a session are in order: the live buffer and the
    snapshots are objects of the heap, the snapshots are distinct objects,
    and none of them is the live buffer. *)
Definition refs_ok {PF : PyFloat} (st : App) : Prop :=
  exists l, processed_image st = Some l /\
    (l < length (heap st))%nat /\
    (l ∉ edit_history st) /\
    NoDup (edit_history st) /\
    Forall (fun l' => (l' < length (heap st))%nat) (edit_history st).

(** The live buffer and the snapshots, by value. *)
Definition live_buffer {PF : PyFloat} (st : App) : option Image :=
  snd <$> processed st.

Definition snapshots {PF : PyFloat} (st : App) : list (option Image) :=
  (fun l => heap st !! l) <$> edit_history st.

(** [edits k st st']: [k] flood fills lead from [st] to [st'], each from a
    seed that was not fully transparent, so that each ran its loop, kept
    its snapshot and reported [Removed n]. *)
Inductive edits {PF : PyFloat} : nat -> App -> App -> Prop :=
| edits_none st : edits 0 st st
| edits_more k st st1 st2 p n :
    edits k st st1 ->
    flood_fill_transparent st1 p = Ok st2 ->
    status_label st2 = Removed n ->
    edits (S k) st st2.

(** The cached AI result, when there is one, is the backend's answer for
    the current original. *)
Definition cache_ok {PF : PyFloat} (bg_remove : Image -> option Image)
    (st : App) : Prop :=
  forall cached, bg_removed_cache st = Some cached ->
    exists orig, original_image st = Some orig /\ bg_remove orig = Some cached.

(** The references of a session from its start on: no image yet and
    nothing to undo, or the references in order. *)
Definition session_ok {PF : PyFloat} (st : App) : Prop :=
  (processed_image st = None /\ edit_history st = []) \/ refs_ok st.

(** The handlers leave the image objects alone. *)
Definition same_objects {PF : PyFloat} (st st' : App) : Prop :=
  heap st' = heap st /\ processed_image st' = processed_image st /\
  edit_history st' = edit_history st /\
  original_image st' = original_image st /\
  bg_removed_cache st' = bg_removed_cache st.

Section Session.
Context {PF : PyFloat}.
Variable AI_AVAILABLE : bool.
Variable bg_remove : Image -> option Image.
Variable resize : Image -> Z -> Z -> Image.
Variable fsub : pyfloat -> pyfloat -> pyfloat.

(** One step of a session: an action, or a click on the canvas that
    returns. *)
Inductive step : App -> App -> Prop :=
| step_act a st : step st (act AI_AVAILABLE bg_remove resize a st)
| step_click magic_wand_mode canvas_width canvas_height canvas_x canvas_y
    st st' :
    on_canvas_click fsub magic_wand_mode canvas_width canvas_height
      canvas_x canvas_y st = Ok st' ->
    step st st'.

End Session.

(** The calls of [putpixel] that [create_checkerboard] makes, in order. *)
Definition checker_writes (width height square_size : Z)
  : list ((Z * Z) * Pixel) :=
  y ← py_range 0 height square_size;
  x ← py_range 0 width square_size;
  dy ← py_range 0 (Z.min square_size (height - y)) 1;
  dx ← py_range 0 (Z.min square_size (width - x)) 1;
  [((x + dx, y + dy),
    if (x / square_size + y / square_size) mod 2 =? 0
    then Px3 200 200 200 else Px3 255 255 255)].

(** The scale of the preview, and the rectangle of the canvas that
    [canvas_to_image_coords] takes the preview to fill: its size and the
    offset of its top left corner. *)
Definition preview_scale {PF : PyFloat} (canvas_width canvas_height : Z)
    (img : Image) : pyfloat :=
  py_min3 (fdiv (of_int canvas_width) (of_int (width img)))
    (fdiv (of_int canvas_height) (of_int (height img))) (of_int 1).

Definition display_size {PF : PyFloat} (canvas_width canvas_height : Z)
    (img : Image) : Z * Z :=
  (py_int (fmul (of_int (width img))
             (preview_scale canvas_width canvas_height img)),
   py_int (fmul (of_int (height img))
             (preview_scale canvas_width canvas_height img))).

Definition preview_offset {PF : PyFloat} (canvas_width canvas_height : Z)
    (img : Image) : Z * Z :=
  ((canvas_width - fst (display_size canvas_width canvas_height img)) / 2,
   (canvas_height - snd (display_size canvas_width canvas_height img)) / 2).

(* ===================================================================== *)
(** ** Sample inputs *)
(* ===================================================================== *)

(** A 3x2 RGBA image: a light area around the corner (0,0), a dark pixel at
    (2,0) and a fully transparent pixel at (0,1). *)
Definition sample_image : Image :=
  {| mode := RGBA; width := 3; height := 2;
     data := [Px4 240 240 240 255; Px4 235 241 239 255; Px4 150 150 150 255;
              Px4 240 240 240 0; Px4 250 250 250 255; Px4 240 240 240 255] |}.

(** The same picture without an alpha channel. *)
Definition sample_rgb : Image :=
  {| mode := RGB; width := 3; height := 2;
     data := [Px3 240 240 240; Px3 235 241 239; Px3 150 150 150;
              Px3 10 20 30; Px3 250 250 250; Px3 240 240 240] |}.

(** A session on binary64 floats: [objects] is the heap, the live buffer is
    object 0 and [history] lists the snapshots. *)
Definition sample_app (original : Image) (objects : list Image)
    (history : list loc) : @App binary64 :=
  @Build_App binary64 objects (Some original) (Some 0%nat) None history 32
    1%float 240 false threshold 2%float 1%float 300 true false false
    (@Numeric binary64 1%float) (@Numeric binary64 2%float)
    (@Numeric binary64 1%float) 1%float 240 NoStatus.

(** An opaque white image of the given size. *)
Definition blank_image (w h : Z) : Image :=
  {| mode := RGB; width := w; height := h;
     data := replicate (Z.to_nat (w * h)) (Px3 255 255 255) |}.

(** The double written [n / 10^k] in decimal. *)
Definition dec (n k : Z) : PrimFloat.float :=
  b64_of_ratio n (Z.to_pos (10 ^ k)).

(** A 600x300 original at 300 dpi: 2.0 by 1.0 inches at scale 1.0. *)
Definition sample_print : @App binary64 :=
  sample_app (blank_image 600 300) [blank_image 600 300] [].

(** A 10x10 original at 300 dpi. *)
Definition sample_small : @App binary64 :=
  sample_app (blank_image 10 10) [blank_image 10 10] [].

(** The 600x300 original on exact rationals, with 1.23 typed into the
    scale entry. *)
Definition sample_exact : @App exactQ :=
  @Build_App exactQ [blank_image 600 300] (Some (blank_image 600 300))
    (Some 0%nat) None [] 32 1%Q 240 false threshold 2%Q 1%Q 300 true false
    false (@Numeric exactQ (123 # 100)%Q) (@Numeric exactQ 2%Q)
    (@Numeric exactQ 1%Q) 1%Q 240 NoStatus.

(** A session with one snapshot to undo. *)
Definition sample_edited : @App binary64 :=
  sample_app sample_image [sample_image; sample_image] [1%nat].

(** Stand-ins for the collaborators in the examples: no AI backend, and a
    nearest-neighbour resize. *)
Definition resize_nearest (img : Image) (w h : Z) : Image :=
  {| mode := mode img; width := w; height := h;
     data :=
       y ← seqZ 0 h;
       (fun x => default (Px3 0 0 0)
                   (getpixel img (x * width img / w, y * height img / h)))
         <$> seqZ 0 w |}.

Definition no_backend (img : Image) : option Image := None.

(** One edit in progress, nothing to undo yet. *)
Definition sample_fresh : @App binary64 :=
  sample_app sample_image [sample_image] [].

(** A session whose history is full: objects 1 to 20 are snapshots. *)
Definition sample_full : @App binary64 :=
  sample_app sample_image (replicate 21 sample_image) (seq 1 20).

(** A session on the RGB picture, nothing to undo yet. *)
Definition sample_opaque : @App binary64 :=
  sample_app sample_rgb [sample_rgb] [].

(** [sample_fresh] with the tolerance slider at 100. *)
Definition sample_tolerant : @App binary64 :=
  @Build_App binary64 [sample_image] (Some sample_image) (Some 0%nat) None []
    100 1%float 240 false threshold 2%float 1%float 300 true false false
    (@Numeric binary64 1%float) (@Numeric binary64 2%float)
    (@Numeric binary64 1%float) 1%float 240 NoStatus.

(** Subtraction on doubles. *)
Definition b64_sub (a b : @pyfloat binary64) : @pyfloat binary64 :=
  PrimFloat.sub a b.

(* ===================================================================== *)
(** ** Pixel access *)
(* ===================================================================== *)

Lemma in_bounds_spec w h p :
  in_bounds w h p = true <-> 0 <= fst p < w /\ 0 <= snd p < h.
Proof. unfold in_bounds. rewrite !andb_true_iff. lia. Qed.

Lemma outside_image_in_bounds w h p :
  outside_image w h p = negb (in_bounds w h p).
Proof.
  unfold outside_image, in_bounds.
  destruct (fst p <? 0) eqn:?, (w <=? fst p) eqn:?, (snd p <? 0) eqn:?,
    (h <=? snd p) eqn:?, (0 <=? fst p) eqn:?, (fst p <? w) eqn:?,
    (0 <=? snd p) eqn:?, (snd p <? h) eqn:?; simpl; try reflexivity; lia.
Qed.

Lemma pil_wrap_in_bounds w h p :
  in_bounds w h p = true -> pil_wrap w h p = p.
Proof.
  intros H%in_bounds_spec. unfold pil_wrap. destruct p as [x y]; simpl in *.
  destruct (x <? 0) eqn:?, (y <? 0) eqn:?; try lia. reflexivity.
Qed.

Lemma px_index_lt w h p :
  in_bounds w h p = true -> (px_index w p < Z.to_nat (w * h))%nat.
Proof.
  intros H%in_bounds_spec. unfold px_index. destruct p as [x y]; simpl in *.
  apply Z2Nat.inj_lt; nia.
Qed.

Lemma px_index_inj w h p q :
  in_bounds w h p = true -> in_bounds w h q = true ->
  px_index w p = px_index w q -> p = q.
Proof.
  intros Hp%in_bounds_spec Hq%in_bounds_spec Heq. unfold px_index in Heq.
  destruct p as [x y], q as [x' y']; simpl in *.
  apply Z2Nat.inj in Heq; [|nia..].
  assert (y = y') by nia. subst y'. f_equal. lia.
Qed.

Lemma pixel_get_in_bounds w h px p :
  in_bounds w h p = true -> pixel_get w h px p = px !! px_index w p.
Proof.
  intros H. unfold pixel_get. rewrite (pil_wrap_in_bounds _ _ _ H), H. reflexivity.
Qed.

Lemma pixel_set_in_bounds w h px p c :
  in_bounds w h p = true ->
  pixel_set w h px p c = Some (<[px_index w p := c]> px).
Proof.
  intros H. unfold pixel_set. rewrite (pil_wrap_in_bounds _ _ _ H), H. reflexivity.
Qed.

Lemma pixel_get_is_Some w h px p :
  Z.of_nat (length px) = w * h -> in_bounds w h p = true ->
  is_Some (pixel_get w h px p).
Proof.
  intros Hlen H. rewrite pixel_get_in_bounds by done.
  apply lookup_lt_is_Some. pose proof (px_index_lt _ _ _ H). lia.
Qed.

Lemma pixel_get_insert_eq w h px p c :
  Z.of_nat (length px) = w * h -> in_bounds w h p = true ->
  pixel_get w h (<[px_index w p := c]> px) p = Some c.
Proof.
  intros Hlen H. rewrite pixel_get_in_bounds by done.
  apply list_lookup_insert_eq. pose proof (px_index_lt _ _ _ H). lia.
Qed.

Lemma pixel_get_insert_ne w h px p q c :
  in_bounds w h p = true -> in_bounds w h q = true -> p <> q ->
  pixel_get w h (<[px_index w p := c]> px) q = pixel_get w h px q.
Proof.
  intros Hp Hq Hne. rewrite !pixel_get_in_bounds by done.
  apply list_lookup_insert_ne. intros Heq. apply Hne.
  eapply px_index_inj; eauto.
Qed.

(* ===================================================================== *)
(** ** Counting pixels *)
(* ===================================================================== *)

Lemma opaque_count_cons c px :
  opaque_count (c :: px) =
  ((if is_transparent c then 0 else 1) + opaque_count px)%nat.
Proof.
  unfold opaque_count. rewrite filter_cons.
  destruct (decide (is_transparent c = false)) as [->|Hn]; simpl; [done|].
  destruct (is_transparent c); [done|congruence].
Qed.

Lemma opaque_count_insert px i c c' :
  px !! i = Some c -> is_transparent c = false -> is_transparent c' = true ->
  (opaque_count (<[i:=c']> px) + 1 = opaque_count px)%nat.
Proof.
  revert i. induction px as [|a px IH]; intros i Hi Hc Hc'; [done|].
  destruct i as [|i]; simpl in *.
  - injection Hi as ->. rewrite !opaque_count_cons, Hc, Hc'. lia.
  - rewrite !opaque_count_cons. specialize (IH i Hi Hc Hc'). lia.
Qed.

Lemma alpha_changes_refl px : alpha_changes px px = 0.
Proof.
  induction px as [|c px IH]; simpl; [done|].
  destruct (decide (px_alpha c = px_alpha c)); [lia|done].
Qed.

Lemma alpha_changes_insert old new i c c' :
  old !! i = Some c -> new !! i = Some c -> px_alpha c <> px_alpha c' ->
  alpha_changes old (<[i:=c']> new) = alpha_changes old new + 1.
Proof.
  revert new i. induction old as [|a old IH]; intros new i Ho Hn Hne; [done|].
  destruct new as [|b new]; [done|].
  destruct i as [|i]; simpl in *.
  - injection Ho as ->. injection Hn as ->.
    destruct (decide (px_alpha c = px_alpha c')); [done|].
    destruct (decide (px_alpha c = px_alpha c)); [lia|done].
  - rewrite (IH new i Ho Hn Hne). lia.
Qed.

Lemma is_transparent_alpha c :
  is_transparent c = true <-> px_alpha c = Some 0.
Proof.
  destruct c as [r g b|r g b a]; simpl; [split; discriminate|].
  unfold is_transparent; simpl. rewrite Z.eqb_eq. split; congruence.
Qed.

Lemma cleared_transparent c : is_transparent (cleared c) = true.
Proof. reflexivity. Qed.

Lemma color_matches_refl tolerance c :
  0 <= tolerance -> color_matches tolerance c c = true.
Proof.
  intros H. unfold color_matches. rewrite !Z.sub_diag. simpl.
  rewrite !andb_true_iff, !Z.leb_le. lia.
Qed.

Lemma color_matches_spec tolerance c1 c2 :
  color_matches tolerance c1 c2 = true <->
  Z.abs (px_r c1 - px_r c2) <= tolerance /\
  Z.abs (px_g c1 - px_g c2) <= tolerance /\
  Z.abs (px_b c1 - px_b c2) <= tolerance.
Proof. unfold color_matches. rewrite !andb_true_iff, !Z.leb_le. tauto. Qed.

(* ===================================================================== *)
(** ** The breadth-first loop *)
(* ===================================================================== *)

Section FillLoop.
Variables (w h : Z) (px0 : list Pixel) (tolerance : Z) (target_color : Pixel).
Variable start : Z * Z.
Hypothesis px0_size : Z.of_nat (length px0) = w * h.
Hypothesis start_inside : in_bounds w h start = true.

Local Abbreviation inv := (fill_inv w h px0 tolerance target_color start).
Local Abbreviation fillable0 := (fillable w h px0 tolerance target_color).
Local Abbreviation region0 := (region w h px0 tolerance target_color start).

Lemma fillable_in_bounds p : fillable0 p = true -> in_bounds w h p = true.
Proof. unfold fillable. intros [H _]%andb_true_iff. exact H. Qed.

Lemma fillable_get p c :
  in_bounds w h p = true -> pixel_get w h px0 p = Some c ->
  fillable0 p = negb (is_transparent c) && color_matches tolerance c target_color.
Proof. intros Hp Hc. unfold fillable. rewrite Hp, Hc. reflexivity. Qed.

Lemma fill_init_inv : inv (fill_init px0 start).
Proof.
  split; simpl.
  - reflexivity.
  - intros p Hp. set_solver.
  - intros p Hp. rewrite bool_decide_eq_false_2 by set_solver. reflexivity.
  - intros p Hp. set_solver.
  - intros q Hq. left. set_solver.
  - intros p q Hp. set_solver.
  - right. set_solver.
  - symmetry. apply alpha_changes_refl.
  - intros p Hp. apply list_elem_of_singleton in Hp. subst. exact start_inside.
Qed.

(** A coordinate that was visited, or lies outside the image, is dropped. *)
Lemma fill_visit_skip p s :
  p ∈ visited s \/ outside_image w h p = true ->
  fill_visit w h tolerance target_color p s = Ok s.
Proof.
  intros H. unfold fill_visit. destruct (bool_decide (p ∈ visited s)) eqn:Hv; [done|].
  destruct H as [H|H]; [|by rewrite H].
  apply bool_decide_eq_false in Hv. done.
Qed.

(** Dropping the head of the queue keeps the invariant when the head is
    visited or outside the image. *)
Lemma pop_queue_inv s p rest :
  inv s -> queue s = p :: rest ->
  p ∈ visited s \/ in_bounds w h p = false ->
  inv (pop_queue s rest).
Proof.
  intros [Hlen Hvis Hpix Hsound Hqueue Hclosed Hstart Hcount Hacc] Hq Hp.
  split; simpl; try done.
  - intros q Hin. apply Hqueue. rewrite Hq. set_solver.
  - intros p' q Hp' Hf Hadj Hb.
    destruct (Hclosed p' q Hp' Hf Hadj Hb) as [?|Hin]; [by left|].
    rewrite Hq in Hin. apply elem_of_cons in Hin as [Heq|?]; [|by right].
    subst q. destruct Hp as [?|?]; [by left|congruence].
  - destruct Hstart as [?|Hin]; [by left|].
    rewrite Hq in Hin. apply elem_of_cons in Hin as [Heq|?]; [|by right].
    destruct Hp as [?|Hp]; [left; by rewrite Heq|].
    rewrite <- Heq in Hp. congruence.
Qed.

Lemma pop_queue_measure s p rest :
  queue s = p :: rest ->
  (fill_measure (pop_queue s rest) + 1 = fill_measure s)%nat.
Proof. intros Hq. unfold fill_measure; simpl. rewrite Hq; simpl. lia. Qed.

(** Marking an unvisited pixel that is not fillable. *)
Lemma mark_boundary_inv s p rest c :
  inv s -> queue s = p :: rest -> p ∉ visited s -> in_bounds w h p = true ->
  pixel_get w h px0 p = Some c ->
  negb (is_transparent c) && color_matches tolerance c target_color = false ->
  inv {| pixels := pixels s; visited := {[p]} ∪ visited s; queue := rest;
         pixels_changed := pixels_changed s; accessed := p :: accessed s |}.
Proof.
  intros [Hlen Hvis Hpix Hsound Hqueue Hclosed Hstart Hcount Hacc] Hq Hv Hb Hc Hnf.
  assert (Hf : fillable0 p = false) by (by rewrite (fillable_get p c)).
  split; simpl; try done.
  - intros p' [->%elem_of_singleton|?]%elem_of_union; auto.
  - intros p' Hb'. rewrite Hpix by done.
    destruct (decide (p' = p)) as [->|Hne].
    + rewrite Hf, !andb_false_r. reflexivity.
    + destruct (bool_decide (p' ∈ visited s)) eqn:E.
      * apply bool_decide_eq_true in E.
        rewrite bool_decide_eq_true_2 by set_solver. reflexivity.
      * apply bool_decide_eq_false in E.
        rewrite bool_decide_eq_false_2 by set_solver. reflexivity.
  - intros p' [->%elem_of_singleton|?]%elem_of_union Hf'; [congruence|auto].
  - intros q Hin. apply Hqueue. rewrite Hq. set_solver.
  - intros p' q [->%elem_of_singleton|Hp']%elem_of_union Hf' Hadj Hbq; [congruence|].
    destruct (Hclosed p' q Hp' Hf' Hadj Hbq) as [?|Hin]; [left; set_solver|].
    rewrite Hq in Hin. apply elem_of_cons in Hin as [Heq|?]; [|by right].
    left. set_solver.
  - destruct Hstart as [?|Hin]; [left; set_solver|].
    rewrite Hq in Hin. apply elem_of_cons in Hin as [Heq|?]; [|by right].
    left. set_solver.
  - intros p' [->|?]%elem_of_cons; auto.
Qed.

(** Clearing an unvisited fillable pixel and enqueuing its neighbours. *)
Lemma clear_pixel_inv s p rest c :
  inv s -> queue s = p :: rest -> p ∉ visited s -> in_bounds w h p = true ->
  pixel_get w h px0 p = Some c ->
  is_transparent c = false -> color_matches tolerance c target_color = true ->
  inv {| pixels := <[px_index w p := cleared c]> (pixels s);
         visited := {[p]} ∪ visited s; queue := rest ++ neighbours p;
         pixels_changed := pixels_changed s + 1;
         accessed := p :: p :: accessed s |}.
Proof.
  intros [Hlen Hvis Hpix Hsound Hqueue Hclosed Hstart Hcount Hacc] Hq Hv Hb Hc Ht Hm.
  assert (Hf : fillable0 p = true) by (by rewrite (fillable_get p c), Ht, Hm).
  assert (Hcur : pixel_get w h (pixels s) p = Some c).
  { rewrite Hpix by done. by rewrite bool_decide_eq_false_2. }
  assert (Hreg : region0 p).
  { destruct (Hqueue p) as [->|(p' & Hp' & Hadj)]; [rewrite Hq; set_solver| |].
    - apply region_start.
    - by eapply region_grow. }
  split; simpl.
  - by rewrite length_insert.
  - intros p' [->%elem_of_singleton|?]%elem_of_union; auto.
  - intros p' Hb'. destruct (decide (p' = p)) as [->|Hne].
    + rewrite pixel_get_insert_eq by (done || lia).
      rewrite bool_decide_eq_true_2 by set_solver. by rewrite Hf, Hc.
    + rewrite pixel_get_insert_ne by done. rewrite Hpix by done.
      destruct (bool_decide (p' ∈ visited s)) eqn:E.
      * apply bool_decide_eq_true in E.
        rewrite bool_decide_eq_true_2 by set_solver. reflexivity.
      * apply bool_decide_eq_false in E.
        rewrite bool_decide_eq_false_2 by set_solver. reflexivity.
  - intros p' [->%elem_of_singleton|?]%elem_of_union Hf'; auto.
  - intros q [Hin|Hin]%elem_of_app.
    + apply Hqueue. rewrite Hq. set_solver.
    + right. exists p. done.
  - intros p' q [->%elem_of_singleton|Hp']%elem_of_union Hf' Hadj Hbq.
    + right. apply elem_of_app. by right.
    + destruct (Hclosed p' q Hp' Hf' Hadj Hbq) as [?|Hin]; [left; set_solver|].
      rewrite Hq in Hin. apply elem_of_cons in Hin as [Heq|?].
      * left. set_solver.
      * right. apply elem_of_app. by left.
  - destruct Hstart as [?|Hin]; [left; set_solver|].
    rewrite Hq in Hin. apply elem_of_cons in Hin as [Heq|?].
    + left. set_solver.
    + right. apply elem_of_app. by left.
  - rewrite Hcount. symmetry.
    rewrite pixel_get_in_bounds in Hc, Hcur by done.
    apply (alpha_changes_insert _ _ _ c); [done..|].
    intros Heq. simpl in Heq.
    assert (is_transparent c = true) by (by apply is_transparent_alpha).
    congruence.
  - intros p' [->|[->|?]%elem_of_cons]%elem_of_cons; auto.
Qed.

(** One turn of the loop: it raises nothing, keeps the invariant and
    lowers the measure by one. *)
Lemma fill_visit_inv s p rest :
  inv s -> queue s = p :: rest ->
  exists s', fill_visit w h tolerance target_color p (pop_queue s rest) = Ok s'
    /\ inv s' /\ (fill_measure s' + 1 = fill_measure s)%nat.
Proof.
  intros Hinv Hq.
  destruct (decide (p ∈ visited s)) as [Hv|Hv].
  { exists (pop_queue s rest). split; [by apply fill_visit_skip; left|].
    split; [eapply pop_queue_inv; eauto|by eapply pop_queue_measure]. }
  destruct (in_bounds w h p) eqn:Hb.
  2:{ exists (pop_queue s rest). split.
      - apply fill_visit_skip. right. by rewrite outside_image_in_bounds, Hb.
      - split; [eapply pop_queue_inv; eauto|by eapply pop_queue_measure]. }
  destruct (pixel_get_is_Some w h px0 p px0_size Hb) as [c Hc].
  assert (Hcur : pixel_get w h (pixels s) p = Some c).
  { rewrite (inv_pixels _ _ _ _ _ _ _ Hinv) by done.
    by rewrite bool_decide_eq_false_2. }
  unfold fill_visit. simpl.
  rewrite bool_decide_eq_false_2 by done.
  rewrite outside_image_in_bounds, Hb. simpl. rewrite Hcur.
  destruct (is_transparent c) eqn:Ht.
  { eexists; split; [reflexivity|]. split.
    - eapply mark_boundary_inv; eauto. by rewrite Ht.
    - unfold fill_measure; simpl. rewrite Hq; simpl. lia. }
  destruct (color_matches tolerance c target_color) eqn:Hm; simpl.
  2:{ eexists; split; [reflexivity|]. split.
      - eapply mark_boundary_inv; eauto. by rewrite Ht, Hm.
      - unfold fill_measure; simpl. rewrite Hq; simpl. lia. }
  rewrite pixel_set_in_bounds by done.
  eexists; split; [reflexivity|]. split.
  - fold (cleared c). eapply clear_pixel_inv; eauto.
  - unfold fill_measure; simpl. rewrite Hq; simpl. rewrite length_app. simpl.
    rewrite pixel_get_in_bounds in Hcur by done.
    pose proof (opaque_count_insert (pixels s) (px_index w p) c
                  (Px4 (px_r c) (px_g c) (px_b c) 0) Hcur Ht eq_refl).
    lia.
Qed.

(** The loop ends, with an empty queue, as soon as the fuel covers the
    measure. *)
Lemma fill_loop_inv fuel s :
  inv s -> (fill_measure s <= fuel)%nat ->
  exists s', fill_loop fuel w h tolerance target_color s = Ok s'
    /\ inv s' /\ queue s' = [].
Proof.
  revert s. induction fuel as [|fuel IH]; intros s Hinv Hm.
  - destruct (queue s) as [|p rest] eqn:Hq.
    + exists s. simpl. by rewrite Hq.
    + unfold fill_measure in Hm. rewrite Hq in Hm. simpl in Hm. lia.
  - destruct (queue s) as [|p rest] eqn:Hq.
    + exists s. simpl. by rewrite Hq.
    + destruct (fill_visit_inv s p rest Hinv Hq) as (s1 & Hstep & Hinv1 & Hm1).
      simpl. rewrite Hq, Hstep. apply IH; [done|lia].
Qed.

Lemma opaque_count_le px : (opaque_count px <= length px)%nat.
Proof. unfold opaque_count. apply length_filter. Qed.

Lemma fill_loop_run :
  exists s, fill_loop (fill_fuel px0) w h tolerance target_color
              (fill_init px0 start) = Ok s
    /\ inv s /\ queue s = [].
Proof.
  apply fill_loop_inv; [apply fill_init_inv|].
  unfold fill_measure, fill_fuel; simpl. lia.
Qed.

(** With the queue empty, the visited fillable pixels are the region. *)
Lemma region_visited s p :
  inv s -> queue s = [] -> fillable0 start = true ->
  region0 p -> p ∈ visited s /\ fillable0 p = true.
Proof.
  intros Hinv Hq Hfs Hreg. induction Hreg as [|p q Hreg [IHv IHf] Hadj Hf].
  - split; [|done]. destruct (inv_start _ _ _ _ _ _ _ Hinv) as [?|Hin]; [done|].
    rewrite Hq in Hin. set_solver.
  - split; [|done].
    destruct (inv_closed _ _ _ _ _ _ _ Hinv p q IHv IHf Hadj
                (fillable_in_bounds q Hf)) as [?|Hin]; [done|].
    rewrite Hq in Hin. set_solver.
Qed.

End FillLoop.

(* ===================================================================== *)
(** ** The undo history as a list *)
(* ===================================================================== *)

Lemma history_pop_snoc {A : Type} (history : list A) (x : A) :
  history_pop (history ++ [x]) = Some (x, history).
Proof.
  unfold history_pop. rewrite reverse_app. simpl.
  by rewrite reverse_involutive.
Qed.

Lemma history_pop_push {A : Type} (history : list A) (x : A) :
  history_pop (history_push history x) =
  Some (x, if (max_history <=? length history)%nat
           then drop 1 history else history).
Proof. unfold history_push. apply history_pop_snoc. Qed.

Lemma history_push_length {A : Type} (history : list A) (x : A) :
  (length history <= max_history)%nat ->
  (length (history_push history x) <= max_history)%nat.
Proof.
  intros H. unfold history_push.
  destruct (max_history <=? length history)%nat eqn:E;
    rewrite length_app; simpl.
  - rewrite length_drop. apply Nat.leb_le in E. unfold max_history in *. lia.
  - apply Nat.leb_gt in E. lia.
Qed.

Lemma history_push_full {A : Type} (history : list A) (x : A) :
  length history = max_history ->
  history_push history x = drop 1 history ++ [x].
Proof. intros H. unfold history_push. by rewrite H. Qed.

Lemma history_push_room {A : Type} (history : list A) (x : A) :
  (length history < max_history)%nat ->
  history_push history x = history ++ [x].
Proof.
  intros H. unfold history_push.
  destruct (max_history <=? length history)%nat eqn:E; [|done].
  apply Nat.leb_le in E. lia.
Qed.

(** Pushing onto the last [max_history] elements of a list gives the last
    [max_history] elements of the longer list. *)
Lemma history_push_window {A : Type} (l : list A) (x : A) :
  history_push (drop (length l - max_history) l) x =
  drop (length (l ++ [x]) - max_history) (l ++ [x]).
Proof.
  rewrite length_app. simpl.
  assert (Hmax : max_history = 20%nat) by reflexivity.
  destruct (decide (length l < max_history)%nat) as [Hlt|Hge].
  - rewrite history_push_room by (rewrite length_drop; lia).
    replace (length l - max_history)%nat with 0%nat by lia.
    replace (length l + 1 - max_history)%nat with 0%nat by lia.
    reflexivity.
  - rewrite history_push_full by (rewrite length_drop; lia).
    rewrite drop_drop.
    replace (length l + 1 - max_history)%nat
      with (length l - max_history + 1)%nat by lia.
    rewrite drop_app_le by lia. reflexivity.
Qed.

(* ===================================================================== *)
(** ** The handlers on the application state *)
(* ===================================================================== *)

Arguments fill_loop : simpl never.
Arguments fill_fuel : simpl never.

Section AppFacts.
Context {PF : PyFloat}.

Lemma processed_Some (st : App) l img :
  processed_image st = Some l -> heap st !! l = Some img ->
  processed st = Some (l, img).
Proof. intros H1 H2. unfold processed. by rewrite H1, H2. Qed.

Lemma processed_inv (st : App) l img :
  processed st = Some (l, img) ->
  processed_image st = Some l /\ heap st !! l = Some img.
Proof.
  unfold processed. destruct (processed_image st) as [l'|]; [|done].
  destruct (heap st !! l') as [img'|] eqn:E; [|done].
  intros [= -> ->]. done.
Qed.

(** [save_edit_state] with an image loaded: a copy is allocated and pushed;
    the live buffer keeps its reference and its contents. *)
Lemma save_edit_state_facts (st : App) l img :
  processed st = Some (l, img) ->
  let st' := save_edit_state st in
  heap st' = heap st ++ [img] /\
  edit_history st' = history_push (edit_history st) (length (heap st)) /\
  processed st' = Some (l, img) /\
  l <> length (heap st) /\
  magic_wand_tolerance st' = magic_wand_tolerance st.
Proof.
  intros Hp. destruct (processed_inv _ _ _ Hp) as [Hl Hh].
  unfold save_edit_state. rewrite Hp. simpl.
  pose proof (lookup_lt_Some _ _ _ Hh) as Hlt.
  repeat split; try done.
  - apply processed_Some; simpl; [done|]. by rewrite lookup_app_l.
  - lia.
Qed.


Lemma convert_rgba_ok img : image_ok img -> image_ok (convert_rgba img).
Proof.
  unfold image_ok, convert_rgba; simpl. by rewrite length_fmap.
Qed.

Lemma fill_image_ok img0 : image_ok img0 -> image_ok (fill_image img0).
Proof.
  unfold fill_image. destruct (Mode_eqb _ _); [done|apply convert_rgba_ok].
Qed.

(** The state after the snapshot and the conversion to RGBA. *)
Lemma flood_fill_prepare (st : App) l img0 :
  processed st = Some (l, img0) ->
  let st1 := save_edit_state st in
  let st2 :=
    if Mode_eqb (mode img0) RGBA then st1
    else set_processed_image (Some (length (heap st1)))
           (set_heap (heap st1 ++ [convert_rgba img0]) st1) in
  processed st2 = Some (fill_loc st l img0, fill_image img0) /\
  edit_history st2 = history_push (edit_history st) (length (heap st)) /\
  heap st2 !! length (heap st) = Some img0 /\
  fill_loc st l img0 <> length (heap st) /\
  magic_wand_tolerance st2 = magic_wand_tolerance st.
Proof.
  intros Hp. destruct (save_edit_state_facts st l img0 Hp)
    as (Hheap & Hhist & Hp1 & Hne & Htol).
  unfold fill_loc, fill_image. destruct (Mode_eqb (mode img0) RGBA); simpl.
  - repeat split; try done. rewrite Hheap. by rewrite list_lookup_middle.
  - rewrite Hheap. repeat split; try done.
    + apply processed_Some; simpl; [|].
      * rewrite length_app. simpl. f_equal. lia.
      * replace (S (length (heap st)))
          with (length (heap st ++ [img0])) by (rewrite length_app; simpl; lia).
        by rewrite list_lookup_middle.
    + rewrite lookup_app_l by (rewrite length_app; simpl; lia).
      by rewrite list_lookup_middle.
Qed.

(** A seed that is not fully transparent: the loop runs to the end and its
    buffer is stored back. *)
Lemma flood_fill_opaque_seed (st : App) l img0 start target_color :
  processed st = Some (l, img0) ->
  image_ok img0 ->
  in_bounds (width img0) (height img0) start = true ->
  getpixel (fill_image img0) start = Some target_color ->
  is_transparent target_color = false ->
  exists s st',
    fill_loop (fill_fuel (data (fill_image img0))) (width img0) (height img0)
      (magic_wand_tolerance st) target_color
      (fill_init (data (fill_image img0)) start) = Ok s /\
    fill_inv (width img0) (height img0) (data (fill_image img0))
      (magic_wand_tolerance st) target_color start s /\
    queue s = [] /\
    flood_fill_transparent st start = Ok st' /\
    processed st' =
      Some (fill_loc st l img0, with_data (fill_image img0) (pixels s)) /\
    edit_history st' = history_push (edit_history st) (length (heap st)) /\
    heap st' !! length (heap st) = Some img0 /\
    status_label st' = Removed (pixels_changed s).
Proof.
  intros Hp Hok Hin Htarget Hopaque.
  destruct (flood_fill_prepare st l img0 Hp) as (Hp2 & Hhist & Hsnap & Hne & Htol).
  assert (Hw : width (fill_image img0) = width img0)
    by (unfold fill_image; by destruct (Mode_eqb _ _)).
  assert (Hh : height (fill_image img0) = height img0)
    by (unfold fill_image; by destruct (Mode_eqb _ _)).
  pose proof (fill_image_ok img0 Hok) as (_ & _ & Hsize).
  rewrite Hw, Hh in Hsize.
  destruct (fill_loop_run (width img0) (height img0) (data (fill_image img0))
              (magic_wand_tolerance st) target_color start Hsize Hin)
    as (s & Hrun & Hinv & Hq).
  exists s. eexists. split; [exact Hrun|]. split; [exact Hinv|]. split; [exact Hq|].
  unfold flood_fill_transparent. rewrite Hp. cbv zeta.
  rewrite Hp2, Htarget, Hopaque, Hw, Hh, Htol, Hrun.
  split; [reflexivity|].
  destruct (processed_inv _ _ _ Hp2) as [Hl2 Hh2].
  pose proof (lookup_lt_Some _ _ _ Hh2) as Hlt.
  repeat split; try done.
  - apply processed_Some; simpl; [done|]. by rewrite list_lookup_insert_eq.
  - simpl. rewrite list_lookup_insert_ne by done. done.
Qed.

(** A seed that is already fully transparent: the snapshot is popped
    again, no pixel is written. *)
Lemma flood_fill_transparent_seed (st : App) l img0 start target_color :
  processed st = Some (l, img0) ->
  getpixel (fill_image img0) start = Some target_color ->
  is_transparent target_color = true ->
  exists st',
    flood_fill_transparent st start = Ok st' /\
    processed st' = Some (fill_loc st l img0, fill_image img0) /\
    edit_history st' =
      (if (max_history <=? length (edit_history st))%nat
       then drop 1 (edit_history st) else edit_history st) /\
    status_label st' = AlreadyTransparent.
Proof.
  intros Hp Htarget Htrans.
  destruct (flood_fill_prepare st l img0 Hp) as (Hp2 & Hhist & Hsnap & Hne & Htol).
  eexists. unfold flood_fill_transparent. rewrite Hp. cbv zeta.
  rewrite Hp2, Htarget, Htrans, Hhist, history_pop_push.
  split; [reflexivity|].
  destruct (processed_inv _ _ _ Hp2) as [Hl2 Hh2].
  repeat split; try done.
Qed.

(** With an image loaded and a seed inside it, the call returns. *)
Lemma flood_fill_returns (st : App) l img0 start :
  processed st = Some (l, img0) -> image_ok img0 ->
  in_bounds (width img0) (height img0) start = true ->
  exists st', flood_fill_transparent st start = Ok st'.
Proof.
  intros Hp Hok Hin.
  pose proof (fill_image_ok img0 Hok) as (_ & _ & Hsize).
  assert (Hw : width (fill_image img0) = width img0)
    by (unfold fill_image; by destruct (Mode_eqb _ _)).
  assert (Hh : height (fill_image img0) = height img0)
    by (unfold fill_image; by destruct (Mode_eqb _ _)).
  destruct (pixel_get_is_Some (width (fill_image img0))
              (height (fill_image img0)) (data (fill_image img0)) start)
    as [target_color Ht]; [done|by rewrite Hw, Hh|].
  destruct (is_transparent target_color) eqn:Etr.
  - destruct (flood_fill_transparent_seed st l img0 start target_color)
      as (st' & Hrun & _); eauto.
  - destruct (flood_fill_opaque_seed st l img0 start target_color)
      as (s & st' & _ & _ & _ & Hrun & _); eauto.
Qed.

End AppFacts.

(** C2.  For every input buffer and threshold, the threshold segmenter maps
    every pixel with R >= t, G >= t and B >= t to (255,255,255,0); it leaves
    the RGB of every other pixel unchanged, with alpha 255 when the source
    has no alpha channel and the source alpha otherwise; the output is an
    RGBA buffer of the same size. *)
Theorem remove_white_background_spec (threshold : Z) (img : Image) :
  image_wf img ->
  let out := remove_white_background threshold img in
  mode out = RGBA /\ width out = width img /\ height out = height img /\
  length (data out) = length (data img) /\
  forall i c, data img !! i = Some c ->
    (threshold <= px_r c /\ threshold <= px_g c /\ threshold <= px_b c ->
       data out !! i = Some (Px4 255 255 255 0)) /\
    (~ (threshold <= px_r c /\ threshold <= px_g c /\ threshold <= px_b c) ->
       exists a,
         data out !! i = Some (Px4 (px_r c) (px_g c) (px_b c) a) /\
         (mode img = RGB -> a = 255) /\
         (mode img = RGBA -> px_alpha c = Some a)).
Proof.
  intros [Hok Hwf]. unfold remove_white_background. cbv zeta.
  assert (Hconv : forall i c, data img !! i = Some c ->
            data (if Mode_eqb (mode img) RGBA then img else convert_rgba img) !! i
            = Some (px_to_rgba c)
            /\ exists a, px_to_rgba c = Px4 (px_r c) (px_g c) (px_b c) a
                 /\ (mode img = RGB -> a = 255)
                 /\ (mode img = RGBA -> px_alpha c = Some a)).
  { intros i c Hi.
    pose proof (proj1 (Forall_lookup _ _) Hwf i c Hi) as Hm.
    destruct (mode img) eqn:Em; simpl.
    - rewrite list_lookup_fmap, Hi. split; [done|].
      destruct c; [|done]. exists 255. done.
    - rewrite Hi. destruct c; [done|]. split; [done|]. eexists. done. }
  simpl. repeat split.
  - by destruct (mode img) eqn:E.
  - by destruct (mode img) eqn:E.
  - by destruct (mode img) eqn:E.
  - rewrite length_fmap. destruct (mode img) eqn:E; simpl; [|done].
    by rewrite length_fmap.
  - intros (Hr & Hg & Hb). destruct (Hconv i c H) as (Hi & a & Ha & _).
    rewrite list_lookup_fmap, Hi. simpl. unfold white_to_transparent.
    rewrite Ha. simpl.
    rewrite (proj2 (Z.leb_le _ _) Hr), (proj2 (Z.leb_le _ _) Hg),
      (proj2 (Z.leb_le _ _) Hb). done.
  - intros Hn. destruct (Hconv i c H) as (Hi & a & Ha & Hrgb & Hrgba).
    exists a. split; [|done].
    rewrite list_lookup_fmap, Hi. simpl. unfold white_to_transparent.
    rewrite Ha. simpl.
    destruct ((threshold <=? px_r c) && (threshold <=? px_g c)
              && (threshold <=? px_b c)) eqn:E; [|done].
    rewrite !andb_true_iff, !Z.leb_le in E. tauto.
Qed.

Lemma remove_white_background_spec_witness :
  let out := remove_white_background 240 sample_rgb in
  mode out = RGBA /\ width out = width sample_rgb /\
  height out = height sample_rgb /\
  length (data out) = length (data sample_rgb) /\
  forall i c, data sample_rgb !! i = Some c ->
    (240 <= px_r c /\ 240 <= px_g c /\ 240 <= px_b c ->
       data out !! i = Some (Px4 255 255 255 0)) /\
    (~ (240 <= px_r c /\ 240 <= px_g c /\ 240 <= px_b c) ->
       exists a,
         data out !! i = Some (Px4 (px_r c) (px_g c) (px_b c) a) /\
         (mode sample_rgb = RGB -> a = 255) /\
         (mode sample_rgb = RGBA -> px_alpha c = Some a)).
Proof.
  apply (remove_white_background_spec 240 sample_rgb).
  split; [unfold image_ok; simpl; lia|].
  repeat constructor.
Defined.

Lemma fillable_spec w h px tolerance target_color p :
  fillable w h px tolerance target_color p = true <->
  in_bounds w h p = true /\
  exists c, pixel_get w h px p = Some c /\ px_alpha c <> Some 0 /\
    Z.abs (px_r c - px_r target_color) <= tolerance /\
    Z.abs (px_g c - px_g target_color) <= tolerance /\
    Z.abs (px_b c - px_b target_color) <= tolerance.
Proof.
  unfold fillable. split.
  - intros [Hb H]%andb_true_iff. split; [done|].
    destruct (pixel_get w h px p) as [c|]; [|done].
    apply andb_true_iff in H as [Ht Hm]. exists c. split; [done|]. split.
    + intros Ha%is_transparent_alpha. by rewrite Ha in Ht.
    + by apply color_matches_spec.
  - intros (Hb & c & Hc & Ha & Hm). rewrite Hb, Hc. simpl.
    apply andb_true_iff. split.
    + destruct (is_transparent c) eqn:Ht; [|done].
      by apply is_transparent_alpha in Ht.
    + by apply color_matches_spec.
Qed.

Section FloodFillClaims.
Context {PF : PyFloat}.




End FloodFillClaims.




Section HistoryClaims.
Context {PF : PyFloat}.

Lemma save_edit_state_iter (st : App) l img n :
  processed st = Some (l, img) ->
  processed (Nat.iter n save_edit_state st) = Some (l, img) /\
  length (heap (Nat.iter n save_edit_state st)) = (length (heap st) + n)%nat /\
  ((length (edit_history st) <= max_history)%nat ->
   (length (edit_history (Nat.iter n save_edit_state st)) <= max_history)%nat) /\
  (edit_history st = [] ->
   edit_history (Nat.iter n save_edit_state st) =
   drop (n - max_history) (seq (length (heap st)) n)).
Proof.
  intros Hp. induction n as [|n (IHp & IHlen & IHbound & IHhist)].
  - simpl. repeat split; try done; lia.
  - rewrite !Nat.iter_succ.
    destruct (save_edit_state_facts _ l img IHp) as (Hheap & Hhist & Hp' & _).
    repeat split.
    + exact Hp'.
    + rewrite Hheap, length_app. simpl. lia.
    + intros Hb. rewrite Hhist. apply history_push_length. auto.
    + intros He. rewrite Hhist, (IHhist He), IHlen.
      pose proof (history_push_window (seq (length (heap st)) n)
                    (length (heap st) + n)%nat) as Hw.
      rewrite length_app, length_seq in Hw.
      change (length [(length (heap st) + n)%nat]) with 1%nat in Hw.
      etrans; [exact Hw|]. rewrite seq_S. f_equal. lia.
Qed.

(** C4.  With an image loaded, a push leaves at most 20 snapshots; onto a
    full history it drops the entry at index 0 and appends, otherwise it
    only appends; the appended snapshot is a copy of the current buffer.
    Undo returns and removes the entry pushed last.  After any number of
    pushes the history holds at most 20 entries, and starting from an empty
    history it holds the last 20 snapshots pushed, oldest first: the 21st
    push removes the first snapshot. *)
Theorem history_bounded_fifo (st : App) (l : loc) (img : Image) :
  processed st = Some (l, img) ->
  (length (edit_history st) <= 20)%nat ->
  let snapshot := length (heap st) in
  let st' := save_edit_state st in
  (length (edit_history st') <= 20)%nat /\
  heap st' !! snapshot = Some img /\
  (length (edit_history st) = 20%nat ->
   edit_history st' = drop 1 (edit_history st) ++ [snapshot]) /\
  ((length (edit_history st) < 20)%nat ->
   edit_history st' = edit_history st ++ [snapshot]) /\
  processed (undo_edit st') = Some (snapshot, img) /\
  edit_history st' = edit_history (undo_edit st') ++ [snapshot] /\
  (forall n,
     (length (edit_history (Nat.iter n save_edit_state st)) <= 20)%nat) /\
  (edit_history st = [] -> forall n,
     edit_history (Nat.iter n save_edit_state st) =
     drop (n - 20) (seq snapshot n)).
Proof.
  intros Hp Hlen snapshot st'.
  destruct (save_edit_state_facts st l img Hp) as (Hheap & Hhist & Hp' & Hne & _).
  fold st' in Hheap, Hhist, Hp'.
  assert (Hundo : history_pop (edit_history st') =
            Some (snapshot, if (max_history <=? length (edit_history st))%nat
                            then drop 1 (edit_history st) else edit_history st)).
  { rewrite Hhist. apply history_pop_push. }
  assert (Hsnap : heap st' !! snapshot = Some img).
  { rewrite Hheap. by rewrite list_lookup_middle. }
  repeat split.
  - rewrite Hhist. by apply (history_push_length (edit_history st)).
  - exact Hsnap.
  - intros Hfull. rewrite Hhist. by apply history_push_full.
  - intros Hroom. rewrite Hhist. by apply history_push_room.
  - unfold undo_edit. rewrite Hundo. apply processed_Some; simpl; done.
  - unfold undo_edit. rewrite Hundo. simpl. exact Hhist.
  - intros n. by apply (save_edit_state_iter st l img n Hp).
  - intros He n. by apply (save_edit_state_iter st l img n Hp).
Qed.

End HistoryClaims.

Lemma history_bounded_fifo_witness :
  edit_history (save_edit_state sample_full) = seq 2 19 ++ [21%nat] /\
  edit_history (Nat.iter 21 save_edit_state sample_fresh) = seq 2 20.
Proof.
  destruct (history_bounded_fifo sample_full 0%nat sample_image)
    as (_ & _ & Hfull & _); [reflexivity | simpl; lia |].
  destruct (history_bounded_fifo sample_fresh 0%nat sample_image)
    as (_ & _ & _ & _ & _ & _ & _ & Hiter); [reflexivity | simpl; lia |].
  split.
  - exact (Hfull eq_refl).
  - exact (Hiter eq_refl 21%nat).
Defined.

(** C3, at a full history.  The seed (0,1) of the sample image is fully
    transparent and the history holds 20 snapshots: the call reports
    [AlreadyTransparent] and writes no pixel, but the history it leaves has
    19 entries, the oldest one being lost. *)
Lemma flood_fill_transparent_seed_full_history :
  length (edit_history sample_full) = 20%nat /\
  getpixel sample_image (0, 1) = Some (Px4 240 240 240 0) /\
  exists st',
    flood_fill_transparent sample_full (0, 1) = Ok st' /\
    status_label st' = AlreadyTransparent /\
    processed st' = processed sample_full /\
    edit_history st' = drop 1 (edit_history sample_full) /\
    length (edit_history st') = 19%nat.
Proof.
  split; [reflexivity|]. split; [reflexivity|].
  destruct (flood_fill_transparent_seed sample_full 0%nat sample_image (0, 1)
              (Px4 240 240 240 0))
    as (st' & Hrun & Hp & Hhist & Hstatus); [reflexivity..|].
  exists st'. split; [exact Hrun|]. split; [exact Hstatus|].
  split; [exact Hp|]. split; [exact Hhist|].
  rewrite Hhist. reflexivity.
Qed.

(* ===================================================================== *)
(** ** Rounding in exact arithmetic *)
(* ===================================================================== *)

Lemma half_even_error q : (Qabs (inject_Z (half_even q) - q) <= 1 # 2)%Q.
Proof.
  unfold half_even.
  pose proof (Qfloor_le q) as Hlo. pose proof (Qlt_floor q) as Hhi.
  rewrite inject_Z_plus in Hhi. change (inject_Z 1) with 1%Q in Hhi.
  apply Qabs_Qle_condition.
  destruct (Qcompare_spec (q - inject_Z (Qfloor q)) (1 # 2)) as [He|Hl|Hg].
  - destruct (Z.even (Qfloor q));
      [|rewrite inject_Z_plus; change (inject_Z 1) with 1%Q]; lra.
  - lra.
  - rewrite inject_Z_plus. change (inject_Z 1) with 1%Q. lra.
Qed.

(** [round(q, 2)] is within half a hundredth of [q]. *)
Lemma Q_round2_error q : (Qabs (Q_round q 2 - q) <= 1 # 200)%Q.
Proof.
  unfold Q_round. change (Z.to_pos (10 ^ 2)) with 100%positive.
  pose proof (half_even_error (q * inject_Z 100)) as H.
  apply Qabs_Qle_condition in H. apply Qabs_Qle_condition.
  rewrite (Qmake_Qdiv (half_even (q * inject_Z 100)) 100).
  change (inject_Z 100) with (100 # 1)%Q in *.
  set (n := inject_Z (half_even (q * (100 # 1)))) in *.
  unfold Qdiv. change (/ (100 # 1))%Q with (1 # 100)%Q. lra.
Qed.

(** Width from scale and scale from that width, both rounded to two
    decimals: the error of the width is magnified by [dpi / W]. *)
Lemma round_trip_error (W d : Z) (s : Q) :
  0 < W -> 0 < d ->
  let w1 := Q_round (inject_Z W * s / inject_Z d) 2 in
  let s2 := Q_round (w1 * inject_Z d / inject_Z W) 2 in
  (Qabs (s2 - s) <= (1 # 200) * (1 + inject_Z d / inject_Z W))%Q.
Proof.
  intros HW Hd w1 s2.
  assert (Ha : (0 < inject_Z W)%Q)
    by (change 0%Q with (inject_Z 0); by rewrite <- Zlt_Qlt).
  assert (Hb : (0 < inject_Z d)%Q)
    by (change 0%Q with (inject_Z 0); by rewrite <- Zlt_Qlt).
  pose proof (Q_round2_error (inject_Z W * s / inject_Z d)) as H1.
  pose proof (Q_round2_error (w1 * inject_Z d / inject_Z W)) as H2.
  fold w1 in H1. fold s2 in H2.
  set (a := inject_Z W) in *. set (b := inject_Z d) in *.
  assert (Hr : (0 < b / a)%Q) by (apply Qlt_shift_div_l; lra).
  assert (Heq : (s2 - s == (s2 - w1 * b / a) + (w1 - a * s / b) * (b / a))%Q)
    by (field; split; lra).
  rewrite Heq.
  apply Qabs_Qle_condition in H1, H2. apply Qabs_Qle_condition.
  generalize dependent (b / a)%Q. intros r Hr Heq.
  generalize dependent (s2 - w1 * b / a)%Q. intros e2 H2.
  generalize dependent (w1 - a * s / b)%Q. intros e1 H1.
  intros. nra.
Qed.

(* ===================================================================== *)
(** ** Dimension entries *)
(* ===================================================================== *)

Section DimensionClaims.
Context {PF : PyFloat}.

Lemma set_updating_dimensions_id (st : App) :
  updating_dimensions st = false -> set_updating_dimensions false st = st.
Proof. destruct st; simpl. intros ->. reflexivity. Qed.

(** The scale the entry handler stores: the input clamped to [0.1, 20]. *)
Lemma on_scale_entry_numeric (st : App) (scale : pyfloat) :
  scale_entry st = Numeric scale ->
  on_scale_entry st =
  let scale :=
    if flt scale lit_0_1 then lit_0_1
    else if flt (of_int 20) scale then of_int 20 else scale in
  update_dimensions_from_scale
    (set_scale_label scale (set_scale_factor scale st)).
Proof. intros H. unfold on_scale_entry. by rewrite H. Qed.


(** C8, as the code has it.  With an image loaded, a positive dpi and an
    accepted input, each handler stores what its own formula gives for the
    current dpi and the original size: the scale entry stores the clamped
    scale and both inch dimensions; the width entry stores the width, the
    scale, and the height only when the aspect ratio is locked (otherwise
    the height is kept); the height entry is symmetric. *)
Theorem dimension_setters_formulas (st : App) (orig : Image) :
  original_image st = Some orig -> updating_dimensions st = false ->
  0 < width orig -> 0 < height orig -> 0 < dpi st ->
  (forall s, scale_entry st = Numeric s ->
     let s' := if flt s lit_0_1 then lit_0_1
               else if flt (of_int 20) s then of_int 20 else s in
     let st' := on_scale_entry st in
     scale_factor st' = s' /\
     width_inches st' =
       py_round (fdiv (fmul (of_int (width orig)) s') (of_int (dpi st))) 2 /\
     height_inches st' =
       py_round (fdiv (fmul (of_int (height orig)) s') (of_int (dpi st))) 2 /\
     dpi st' = dpi st) /\
  (forall w, width_entry st = Numeric w -> fle w (of_int 0) = false ->
     let st' := on_width_change st in
     width_inches st' = w /\
     scale_factor st' =
       py_round (fdiv (fmul w (of_int (dpi st))) (of_int (width orig))) 2 /\
     height_inches st' =
       (if lock_aspect_ratio st
        then py_round
               (fmul w (fdiv (of_int (height orig)) (of_int (width orig)))) 2
        else height_inches st) /\
     dpi st' = dpi st) /\
  (forall h, height_entry st = Numeric h -> fle h (of_int 0) = false ->
     let st' := on_height_change st in
     height_inches st' = h /\
     scale_factor st' =
       py_round (fdiv (fmul h (of_int (dpi st))) (of_int (height orig))) 2 /\
     width_inches st' =
       (if lock_aspect_ratio st
        then py_round
               (fmul h (fdiv (of_int (width orig)) (of_int (height orig)))) 2
        else width_inches st) /\
     dpi st' = dpi st).
Proof.
  intros Ho Hu _ _ _. split; [|split].
  - intros s Hs s' st'. unfold st'.
    rewrite (on_scale_entry_numeric st s Hs). cbv zeta. fold s'.
    unfold update_dimensions_from_scale. simpl. by rewrite Ho, Hu.
  - intros w Hw Hpos st'. unfold st', on_width_change.
    rewrite Ho, Hu, Hw, Hpos. simpl.
    by destruct (lock_aspect_ratio st).
  - intros h Hh Hpos st'. unfold st', on_height_change.
    rewrite Ho, Hu, Hh, Hpos. simpl.
    by destruct (lock_aspect_ratio st).
Qed.

End DimensionClaims.

(* ===================================================================== *)
(** ** Reprocessing *)
(* ===================================================================== *)

Section ReprocessingClaims.
Context {PF : PyFloat}.
Variable AI_AVAILABLE : bool.
Variable bg_remove : Image -> option Image.
Variable resize : Image -> Z -> Z -> Image.

Local Abbreviation process := (process_image AI_AVAILABLE bg_remove resize).
Local Abbreviation fit := (fit_target resize).

Lemma update_dimensions_from_scale_keeps (st : App) :
  edit_history (update_dimensions_from_scale st) = edit_history st /\
  processed_image (update_dimensions_from_scale st) = processed_image st /\
  heap (update_dimensions_from_scale st) = heap st.
Proof.
  unfold update_dimensions_from_scale.
  destruct (original_image st); [|done].
  by destruct (updating_dimensions st).
Qed.

(** [process_image] with an original loaded: it returns an image made from
    the original, and touches neither the heap nor the history. *)
Lemma process_image_facts (st : App) (orig : Image) :
  original_image st = Some orig ->
  exists st2 img,
    process st = (st2, Some img) /\
    heap st2 = heap st /\ edit_history st2 = edit_history st /\
    (remove_background st = false -> img = fit st orig) /\
    (remove_background st = true ->
     bg_removal_method st = threshold \/ AI_AVAILABLE = false ->
     img = fit st (remove_white_background (white_threshold st) orig)).
Proof.
  intros Ho. unfold process_image. rewrite Ho.
  destruct (remove_background st) eqn:Hrb.
  - destruct (Method_eqb (bg_removal_method st) ai && AI_AVAILABLE) eqn:Hai.
    + apply andb_true_iff in Hai as [Hm Hav].
      assert (Hno : ~ (bg_removal_method st = threshold \/ AI_AVAILABLE = false)).
      { intros [Ht|Hf]; [by rewrite Ht in Hm|congruence]. }
      unfold remove_background_ai. rewrite Hav. simpl.
      destruct (bg_removed_cache st) as [cached|];
        [|destruct (bg_remove orig) as [res|]];
        (eexists _, _; split; [reflexivity|]; simpl;
         split; [reflexivity|]; split; [reflexivity|];
         split; [discriminate|];
         intros _ [Ht|Hf]; [by rewrite Ht in Hm|discriminate]).
    + eexists _, _. split; [reflexivity|]. split; [done|]. split; [done|].
      split; [discriminate|reflexivity].
  - eexists _, _. split; [reflexivity|]. split; [done|]. split; [done|].
    split; [reflexivity|discriminate].
Qed.


End ReprocessingClaims.

Section ExactArithmetic.
#[local] Existing Instance exactQ.



End ExactArithmetic.

Section DoubleExamples.
#[local] Existing Instance binary64.


Lemma dimension_setters_formulas_witness :
  let st := set_width_entry (@Numeric binary64 (dec 4 0)) sample_print in
  scale_factor (on_width_change st) =
    py_round (fdiv (fmul (dec 4 0) (of_int 300)) (of_int 600)) 2 /\
  height_inches (on_width_change st) =
    py_round (fmul (dec 4 0) (fdiv (of_int 300) (of_int 600))) 2.
Proof.
  intros st.
  destruct (dimension_setters_formulas st (blank_image 600 300))
    as (_ & Hw & _); [reflexivity..|].
  destruct (Hw (dec 4 0)) as (_ & Hs & Hh & _); [reflexivity..|].
  split; [exact Hs|exact Hh].
Defined.


(** C8 as stated fails with the aspect ratio unlocked: after the width is
    set to 4.0 the scale is 2.0 and the height is still 1.0, while the
    formulas give a height of 2.0 for that scale and a scale of 1.0 for
    that height. *)
Lemma unlocked_width_leaves_height :
  let st := set_width_entry (@Numeric binary64 (dec 4 0))
              (set_lock_aspect_ratio false sample_print) in
  let st' := on_width_change st in
  fle (dec 4 0) (of_int 0) = false /\
  width_inches st' = dec 4 0 /\
  scale_factor st' = dec 2 0 /\
  height_inches st' = dec 1 0 /\
  py_round (fdiv (fmul (of_int 300) (scale_factor st')) (of_int (dpi st'))) 2
    = dec 2 0 /\
  py_round (fdiv (fmul (height_inches st') (of_int (dpi st'))) (of_int 300)) 2
    = dec 1 0.
Proof. cbv zeta. repeat split; reflexivity. Qed.


(** On doubles, for the 600 pixel wide original at 300 dpi, every scale
    with two decimals from 0.10 to 20.00 comes back unchanged. *)
Lemma two_decimal_scales_round_trip :
  forallb (fun n => PrimFloat.eqb (scale_round_trip sample_print (dec n 2))
                      (dec n 2))
    (seqZ 10 1991) = true.
Proof. vm_compute. reflexivity. Qed.



End DoubleExamples.

(* ===================================================================== *)
(** ** More on the threshold segmenter *)
(* ===================================================================== *)

Lemma white_to_transparent_idem threshold c :
  white_to_transparent threshold (white_to_transparent threshold c)
  = white_to_transparent threshold c.
Proof.
  unfold white_to_transparent.
  destruct ((threshold <=? px_r c) && (threshold <=? px_g c)
            && (threshold <=? px_b c)) eqn:E; simpl.
  - by destruct (threshold <=? 255).
  - by rewrite E.
Qed.

Lemma remove_white_background_mode threshold img :
  mode (remove_white_background threshold img) = RGBA.
Proof.
  unfold remove_white_background. simpl. by destruct (mode img) eqn:E.
Qed.

(** X1.  The segmenter is idempotent: running it on its own output, with
    the same threshold, changes nothing, for every threshold and every
    image of either mode. *)
Theorem remove_white_background_idempotent (threshold : Z) (img : Image) :
  remove_white_background threshold (remove_white_background threshold img)
  = remove_white_background threshold img.
Proof.
  pose proof (remove_white_background_mode threshold img) as Hm.
  unfold remove_white_background at 1. rewrite Hm. simpl.
  unfold remove_white_background. simpl.
  destruct (mode img) eqn:E; simpl; f_equal;
    rewrite <- list_fmap_compose; apply list_fmap_ext;
    intros i c _; apply white_to_transparent_idem.
Qed.

Lemma white_to_transparent_mono t1 t2 c :
  t1 <= t2 ->
  is_transparent (white_to_transparent t2 c) = true ->
  is_transparent (white_to_transparent t1 c) = true.
Proof.
  intros Hle. unfold white_to_transparent.
  destruct ((t2 <=? px_r c) && (t2 <=? px_g c) && (t2 <=? px_b c)) eqn:E2.
  - apply andb_true_iff in E2 as [[Hr Hg]%andb_true_iff Hb].
    apply Z.leb_le in Hr, Hg, Hb. intros _.
    rewrite (proj2 (Z.leb_le t1 (px_r c))), (proj2 (Z.leb_le t1 (px_g c))),
      (proj2 (Z.leb_le t1 (px_b c))) by lia.
    reflexivity.
  - intros Ht.
    by destruct ((t1 <=? px_r c) && (t1 <=? px_g c) && (t1 <=? px_b c)).
Qed.

(** X2.  Lowering the threshold only removes more: a pixel that is fully
    transparent in the output for the threshold [t2] is fully transparent
    in the output for every threshold [t1 <= t2]. *)
Theorem remove_white_background_monotone (t1 t2 : Z) (img : Image)
    (i : nat) (c2 : Pixel) :
  t1 <= t2 ->
  data (remove_white_background t2 img) !! i = Some c2 ->
  is_transparent c2 = true ->
  exists c1,
    data (remove_white_background t1 img) !! i = Some c1 /\
    is_transparent c1 = true.
Proof.
  intros Hle. unfold remove_white_background. simpl.
  rewrite !list_lookup_fmap.
  destruct (data (if Mode_eqb (mode img) RGBA then img else convert_rgba img)
              !! i) as [c|]; simpl; [|done].
  intros [= <-] Ht. eexists. split; [reflexivity|].
  by apply (white_to_transparent_mono t1 t2).
Qed.

Lemma remove_white_background_monotone_witness :
  exists c1,
    data (remove_white_background 200 sample_image) !! 3%nat = Some c1 /\
    is_transparent c1 = true.
Proof.
  apply (remove_white_background_monotone 200 240 sample_image 3
           (Px4 255 255 255 0)); [lia|reflexivity|reflexivity].
Defined.

(* ===================================================================== *)
(** ** References, snapshots and undo *)
(* ===================================================================== *)

Section Snapshots.
Context {PF : PyFloat}.

Lemma refs_ok_processed (st : App) :
  refs_ok st -> exists l img, processed st = Some (l, img).
Proof.
  intros (l & Hl & Hlt & _). destruct (lookup_lt_is_Some_2 _ _ Hlt) as [img Hi].
  exists l, img. by apply processed_Some.
Qed.

(** What a call of [flood_fill_transparent] that returns leaves behind:
    the heap grows by the snapshot (and by the converted image, for an RGB
    buffer), and only the live object is written. *)
Lemma flood_fill_cases (st : App) l img0 p st' :
  processed st = Some (l, img0) ->
  flood_fill_transparent st p = Ok st' ->
  let grown :=
    (heap st ++ [img0])
    ++ (if Mode_eqb (mode img0) RGBA then [] else [convert_rgba img0]) in
  processed_image st' = Some (fill_loc st l img0) /\
  original_image st' = original_image st /\
  bg_removed_cache st' = bg_removed_cache st /\
  updating_dimensions st' = updating_dimensions st /\
  processing st' = processing st /\
  ((status_label st' = AlreadyTransparent /\
    heap st' = grown /\
    edit_history st' =
      (if (max_history <=? length (edit_history st))%nat
       then drop 1 (edit_history st) else edit_history st))
   \/
   (exists px n,
      status_label st' = Removed n /\
      heap st' = <[fill_loc st l img0 := with_data (fill_image img0) px]> grown /\
      edit_history st' = history_push (edit_history st) (length (heap st)))).
Proof.
  intros Hp Hrun grown.
  destruct (flood_fill_prepare st l img0 Hp) as (Hp2 & Hhist & _ & _ & _).
  destruct (processed_inv _ _ _ Hp2) as [Hl2 _].
  unfold flood_fill_transparent in Hrun. rewrite Hp in Hrun. cbv zeta in Hrun.
  rewrite Hp2 in Hrun.
  assert (Hgrown :
    heap (if Mode_eqb (mode img0) RGBA then save_edit_state st
          else set_processed_image (Some (length (heap (save_edit_state st))))
                 (set_heap (heap (save_edit_state st) ++ [convert_rgba img0])
                    (save_edit_state st))) = grown).
  { unfold grown, save_edit_state. rewrite Hp.
    destruct (Mode_eqb (mode img0) RGBA); simpl; [by rewrite app_nil_r|done]. }
  assert (Hkeep : forall f : App -> bool,
            (forall v st0, f (set_heap v st0) = f st0) ->
            (forall v st0, f (set_edit_history v st0) = f st0) ->
            (forall v st0, f (set_processed_image v st0) = f st0) ->
            f (if Mode_eqb (mode img0) RGBA then save_edit_state st
               else set_processed_image
                      (Some (length (heap (save_edit_state st))))
                      (set_heap (heap (save_edit_state st) ++ [convert_rgba img0])
                         (save_edit_state st))) = f st).
  { intros f H1 H2 H3. unfold save_edit_state. rewrite Hp.
    destruct (Mode_eqb (mode img0) RGBA); by rewrite ?H3, ?H1, ?H2. }
  assert (Hkeepo :
    original_image (if Mode_eqb (mode img0) RGBA then save_edit_state st
               else set_processed_image
                      (Some (length (heap (save_edit_state st))))
                      (set_heap (heap (save_edit_state st) ++ [convert_rgba img0])
                         (save_edit_state st))) = original_image st
    /\ bg_removed_cache (if Mode_eqb (mode img0) RGBA then save_edit_state st
               else set_processed_image
                      (Some (length (heap (save_edit_state st))))
                      (set_heap (heap (save_edit_state st) ++ [convert_rgba img0])
                         (save_edit_state st))) = bg_removed_cache st).
  { unfold save_edit_state. rewrite Hp.
    by destruct (Mode_eqb (mode img0) RGBA). }
  destruct Hkeepo as [Horig Hcache].
  pose proof (Hkeep updating_dimensions (fun _ _ => eq_refl)
                (fun _ _ => eq_refl) (fun _ _ => eq_refl)) as Hupd.
  pose proof (Hkeep processing (fun _ _ => eq_refl)
                (fun _ _ => eq_refl) (fun _ _ => eq_refl)) as Hproc.
  destruct (getpixel (fill_image img0) p) as [target_color|]; [|done].
  destruct (is_transparent target_color).
  - injection Hrun as <-. simpl.
    rewrite Hhist, history_pop_push.
    repeat split; try done. left. done.
  - destruct (fill_loop _ _ _ _ _ _) as [s|e]; [|done].
    injection Hrun as <-. simpl.
    repeat split; try done. right. exists (pixels s), (pixels_changed s).
    by rewrite Hgrown.
Qed.

Lemma snapshots_length (st : App) :
  length (snapshots st) = length (edit_history st).
Proof. unfold snapshots. by rewrite length_fmap. Qed.

(** The core of the isolation argument: a heap that agrees with
    the old one below [n] gives the same snapshots for references below
    [n]. *)
Lemma fmap_lookup_agree (h h' : list Image) (refs : list loc) (n : nat) :
  Forall (fun l' => (l' < n)%nat) refs ->
  (forall l', (l' < n)%nat -> l' ∈ refs -> h' !! l' = h !! l') ->
  (fun l => h' !! l) <$> refs = (fun l => h !! l) <$> refs.
Proof.
  intros Hall Hag. apply list_fmap_ext. intros i l' Hi.
  apply Hag; [|by eapply list_elem_of_lookup_2].
  by apply (proj1 (Forall_lookup _ _) Hall i).
Qed.

(** What a call that returns does to the heap, to the references and to
    the snapshots. *)
Lemma flood_fill_refs (st : App) (l : loc) (img0 : Image)
    (p : Z * Z) (st' : App) :
  refs_ok st -> processed st = Some (l, img0) ->
  flood_fill_transparent st p = Ok st' ->
  refs_ok st' /\
  (forall l', (l' < length (heap st))%nat ->
     l' <> l \/ mode img0 = RGB ->
     heap st' !! l' = heap st !! l') /\
  ((status_label st' = AlreadyTransparent /\
    live_buffer st' = Some (fill_image img0) /\
    snapshots st' =
      (if (max_history <=? length (snapshots st))%nat
       then drop 1 (snapshots st) else snapshots st))
   \/
   (exists n, status_label st' = Removed n /\
      snapshots st' = history_push (snapshots st) (Some img0))).
Proof.
  intros (l0 & Hl0 & Hlt & Hnotin & Hnd & Hall) Hp Hrun.
  destruct (processed_inv _ _ _ Hp) as [Hl Hh].
  rewrite Hl in Hl0. injection Hl0 as <-.
  destruct (flood_fill_cases st l img0 p st' Hp Hrun)
    as (Hlive & _ & _ & _ & _ & Hcases).
  set (grown := (heap st ++ [img0])
                ++ (if Mode_eqb (mode img0) RGBA then []
                    else [convert_rgba img0])) in *.
  assert (Hglen : (length (heap st) < length grown)%nat).
  { unfold grown. rewrite !length_app. simpl. lia. }
  assert (Hgold : forall l', (l' < length (heap st))%nat ->
                    grown !! l' = heap st !! l').
  { intros l' Hl'. unfold grown.
    rewrite lookup_app_l by (rewrite length_app; simpl; lia).
    by rewrite lookup_app_l. }
  assert (Hgsnap : grown !! length (heap st) = Some img0).
  { unfold grown. rewrite lookup_app_l by (rewrite length_app; simpl; lia).
    by rewrite list_lookup_middle. }
  assert (Hfl : (fill_loc st l img0 < length grown)%nat
                /\ fill_loc st l img0 <> length (heap st)
                /\ (forall l', (l' < length (heap st))%nat ->
                      l' <> l \/ mode img0 = RGB -> l' <> fill_loc st l img0)
                /\ grown !! fill_loc st l img0 = Some (fill_image img0)).
  { unfold fill_loc, fill_image, grown.
    destruct (mode img0) eqn:Em; simpl.
    - rewrite !length_app. simpl.
      split; [lia|]. split; [lia|]. split; [intros l' Hl' _; lia|].
      replace (S (length (heap st)))
        with (length (heap st ++ [img0])) by (rewrite length_app; simpl; lia).
      by rewrite list_lookup_middle.
    - rewrite !length_app. simpl.
      split; [lia|]. split; [lia|]. split.
      + intros l' Hl' [Hne|Hrgb]; [done|discriminate].
      + rewrite app_nil_r. by rewrite lookup_app_l.
  }
  destruct Hfl as (Hfllt & Hflne & Hflother & Hflget).
  assert (Hkept : Forall (fun l' => (l' < length (heap st))%nat)
                    (if (max_history <=? length (edit_history st))%nat
                     then drop 1 (edit_history st) else edit_history st)
                  /\ NoDup (if (max_history <=? length (edit_history st))%nat
                            then drop 1 (edit_history st) else edit_history st)
                  /\ forall x,
                       x ∈ (if (max_history <=? length (edit_history st))%nat
                            then drop 1 (edit_history st) else edit_history st)
                       -> x ∈ edit_history st).
  { destruct (max_history <=? length (edit_history st))%nat.
    - split; [by apply Forall_drop|].
      split; [exact (sublist_NoDup _ _ Hnd (sublist_drop _ _))|].
      intros x Hx. by apply (subseteq_drop 1 (edit_history st)).
    - done. }
  destruct Hkept as (Hkall & Hknd & Hksub).
  assert (Hin_lt : forall x, x ∈ edit_history st -> (x < length (heap st))%nat).
  { intros x Hx. by apply (proj1 (Forall_forall _ _) Hall). }
  assert (Hfl_notin : forall x, x ∈ edit_history st -> x <> fill_loc st l img0).
  { intros x Hx. apply Hflother; [by apply Hin_lt|].
    destruct (decide (x = l)) as [->|]; [done|by left]. }
  destruct Hcases as [(Hstatus & Hheap & Hhist)|(px & n & Hstatus & Hheap & Hhist)].
  - (* transparent seed *)
    split; [|split].
    + exists (fill_loc st l img0). rewrite Hheap, Hhist.
      split; [done|]. split; [done|]. split.
      { intros Hx. by apply (Hfl_notin _ (Hksub _ Hx)). }
      split; [done|].
      eapply Forall_impl; [exact Hkall|]. simpl. intros; lia.
    + intros l' Hl' _. rewrite Hheap. by apply Hgold.
    + left. split; [done|]. split.
      * unfold live_buffer, processed. by rewrite Hlive, Hheap, Hflget.
      * unfold snapshots. rewrite Hhist, Hheap, length_fmap.
        etrans; [apply (fmap_lookup_agree (heap st) grown _ _ Hkall);
                 intros; by apply Hgold|].
        destruct (max_history <=? length (edit_history st))%nat; [|done].
        by rewrite fmap_drop.
  - (* pixels cleared *)
    assert (Hnew : forall l', l' <> fill_loc st l img0 ->
              heap st' !! l' = grown !! l').
    { intros l' Hne. rewrite Hheap. by apply list_lookup_insert_ne. }
    split; [|split].
    + exists (fill_loc st l img0). rewrite Hheap, Hhist, length_insert.
      split; [done|]. split; [done|]. unfold history_push. split.
      { intros [Hx|Hx]%elem_of_app.
        - by apply (Hfl_notin _ (Hksub _ Hx)).
        - apply list_elem_of_singleton in Hx. done. }
      split.
      { apply NoDup_app. split; [done|]. split; [|apply NoDup_singleton].
        intros x Hx Hx'. apply list_elem_of_singleton in Hx'. subst x.
        pose proof (Hin_lt _ (Hksub _ Hx)). lia. }
      apply Forall_app. split.
      * eapply Forall_impl; [exact Hkall|]. simpl. intros; lia.
      * by apply Forall_singleton.
    + intros l' Hl' Hne. rewrite Hnew by (by apply Hflother).
      by apply Hgold.
    + right. exists n. split; [done|].
      unfold snapshots. rewrite Hhist. unfold history_push.
      rewrite fmap_app, length_fmap, list_fmap_singleton.
      rewrite (Hnew _ (not_eq_sym Hflne)).
      f_equal; [|f_equal; exact Hgsnap].
      etrans; [apply (fmap_lookup_agree (heap st) (heap st') _ _ Hkall)|].
      * intros l' Hl' Hx. rewrite Hnew; [by apply Hgold|].
        by apply (Hfl_notin _ (Hksub _ Hx)).
      * destruct (max_history <=? length (edit_history st))%nat; [|done].
        by rewrite fmap_drop.
Qed.


End Snapshots.

(* ===================================================================== *)
(** ** Runs of edits and undos *)
(* ===================================================================== *)

Section UndoRuns.
Context {PF : PyFloat}.

(** One undo on a session whose references are in order. *)
Lemma undo_edit_refs (st : App) (rest : list loc) (x : loc) :
  refs_ok st -> edit_history st = rest ++ [x] ->
  refs_ok (undo_edit st) /\
  heap (undo_edit st) = heap st /\
  edit_history (undo_edit st) = rest /\
  live_buffer (undo_edit st) = heap st !! x.
Proof.
  intros (l & Hl & Hlt & Hnotin & Hnd & Hall) Hhist.
  unfold undo_edit. rewrite Hhist, history_pop_snoc. simpl.
  rewrite Hhist in Hnd, Hall.
  apply NoDup_app in Hnd as (Hnd1 & Hdisj & _).
  apply Forall_app in Hall as (Hall1 & Hx).
  rewrite Forall_singleton in Hx.
  split; [|split; [done|split; [done|]]].
  - exists x. simpl. split; [done|]. split; [done|]. split; [|done].
    intros Hin. apply (Hdisj x Hin). apply list_elem_of_here.
  - unfold live_buffer, processed. simpl. unfold loc in *.
    destruct (lookup_lt_is_Some_2 (heap st) x Hx) as [img Himg].
    by rewrite Himg.
Qed.

(** As many undos as there are snapshots above [s]: the live buffer is the
    oldest of them, the snapshots left are [s]. *)
Lemma undo_edit_iter (t : list (option Image)) :
  forall (st : App) (s : list (option Image)) (b : option Image),
  refs_ok st -> snapshots st = s ++ b :: t ->
  let back := Nat.iter (S (length t)) undo_edit st in
  refs_ok back /\ live_buffer back = b /\ snapshots back = s.
Proof.
  induction t as [|c t IH] using rev_ind; intros st s b Hrefs Hsnap.
  - simpl. unfold snapshots in Hsnap.
    apply fmap_app_inv in Hsnap as (rest & last & -> & Hlast & Hhist).
    destruct last as [|x [|]]; try discriminate. simpl in Hlast.
    injection Hlast as ->.
    destruct (undo_edit_refs st rest x Hrefs Hhist) as (Hr & Hheap & Hh & Hlive).
    split; [done|]. split; [done|].
    unfold snapshots. by rewrite Hh, Hheap.
  - rewrite length_app. simpl.
    replace (length t + 1)%nat with (S (length t)) by lia.
    cbv zeta. rewrite Nat.iter_succ_r.
    unfold snapshots in Hsnap.
    assert (Hsnap' : (fun l => heap st !! l) <$> edit_history st
                     = (s ++ b :: t) ++ [c])
      by (rewrite Hsnap, <- app_assoc; reflexivity).
    apply fmap_app_inv in Hsnap' as (rest & last & Hrest & Hlast & Hhist).
    destruct last as [|x [|]]; try discriminate.
    destruct (undo_edit_refs st rest x Hrefs Hhist) as (Hr & Hheap & Hh & Hlive).
    apply (IH (undo_edit st) s b Hr).
    unfold snapshots. by rewrite Hh, Hheap.
Qed.

(** A run of edits that fits into the history: each one pushes the buffer
    it found, the first one the buffer the run started from. *)
Lemma edits_snapshots (k : nat) (st st' : App) :
  edits k st st' -> refs_ok st ->
  (k + length (edit_history st) <= max_history)%nat ->
  refs_ok st' /\
  length (edit_history st') = (k + length (edit_history st))%nat /\
  match k with
  | O => st' = st
  | S k' => exists mid, length mid = k' /\
              snapshots st' = snapshots st ++ live_buffer st :: mid
  end.
Proof.
  induction 1 as [st|k st st1 st2 p n Hedits IH Hrun Hstatus];
    intros Hrefs Hfit.
  - done.
  - destruct IH as (Hrefs1 & Hlen1 & Hshape); [done|lia|].
    destruct (refs_ok_processed st1 Hrefs1) as (l1 & img1 & Hp1).
    destruct (flood_fill_refs st1 l1 img1 p st2 Hrefs1 Hp1 Hrun)
      as (Hrefs2 & _ & [(Hst & _)|(n' & _ & Hsnap)]).
    { rewrite Hstatus in Hst. discriminate. }
    rewrite history_push_room in Hsnap
      by (rewrite snapshots_length; lia).
    split; [done|]. split.
    { rewrite <- (snapshots_length st2), Hsnap, length_app, snapshots_length.
      simpl. lia. }
    assert (Hlive1 : live_buffer st1 = Some img1)
      by (unfold live_buffer; by rewrite Hp1).
    destruct k as [|k'].
    + subst st1. exists []. split; [done|]. by rewrite Hsnap, Hlive1.
    + destruct Hshape as (mid & Hmid & Hs1).
      exists (mid ++ [Some img1]). split.
      * rewrite length_app. simpl. lia.
      * rewrite Hsnap, Hs1, <- app_assoc. reflexivity.
Qed.

(** X4.  Undo takes back a run of edits.  On a session whose references
    are in order, after [k] flood fills that each reported removed pixels
    (none of them from a fully transparent seed), with room in the history
    for all [k] snapshots, [k] undos give back the live buffer and the
    snapshots the run started from, pixel for pixel. *)
Theorem edits_then_undos (k : nat) (st st' : App) :
  refs_ok st -> edits k st st' ->
  (k + length (edit_history st) <= max_history)%nat ->
  let back := Nat.iter k undo_edit st' in
  refs_ok back /\
  live_buffer back = live_buffer st /\
  snapshots back = snapshots st.
Proof.
  intros Hrefs Hedits Hfit.
  destruct (edits_snapshots k st st' Hedits Hrefs Hfit)
    as (Hrefs' & _ & Hshape).
  destruct k as [|k'].
  - subst st'. simpl. done.
  - destruct Hshape as (mid & Hmid & Hsnap). rewrite <- Hmid.
    apply (undo_edit_iter mid st' (snapshots st) (live_buffer st) Hrefs' Hsnap).
Qed.

End UndoRuns.

Section UndoExamples.
#[local] Existing Instance binary64.

Lemma sample_fresh_refs : refs_ok sample_fresh.
Proof.
  exists 0%nat. split; [reflexivity|]. split; [simpl; lia|].
  split; [apply not_elem_of_nil|]. split; [apply NoDup_nil_2|apply Forall_nil_2].
Qed.

Lemma sample_edited_refs : refs_ok sample_edited.
Proof.
  exists 0%nat. split; [reflexivity|]. split; [simpl; lia|].
  split; [|split].
  - intros Hin. apply list_elem_of_singleton in Hin. discriminate.
  - apply NoDup_singleton.
  - apply Forall_singleton. simpl. lia.
Qed.


Lemma edits_then_undos_witness :
  exists st',
    flood_fill_transparent sample_fresh (0, 0) = Ok st' /\
    live_buffer (undo_edit st') = Some sample_image /\
    snapshots (undo_edit st') = [].
Proof.
  destruct (flood_fill_opaque_seed sample_fresh 0%nat sample_image (0, 0)
              (Px4 240 240 240 255))
    as (s & st' & _ & _ & _ & Hrun & _ & _ & _ & Hstatus);
    [reflexivity | unfold image_ok; simpl; lia | reflexivity | reflexivity
    | reflexivity |].
  exists st'. split; [exact Hrun|].
  destruct (edits_then_undos 1 sample_fresh st' sample_fresh_refs
              (edits_more 0 _ _ _ _ _ (edits_none _) Hrun Hstatus))
    as (_ & Hlive & Hsnap); [simpl; unfold max_history; lia|].
  split; [exact Hlive|exact Hsnap].
Defined.

End UndoExamples.

(* ===================================================================== *)
(** ** More on the flood fill *)
(* ===================================================================== *)

Lemma fill_image_facts (img0 : Image) :
  mode (fill_image img0) = RGBA /\
  width (fill_image img0) = width img0 /\
  height (fill_image img0) = height img0.
Proof.
  unfold fill_image. destruct (mode img0) eqn:E; simpl; rewrite ?E; done.
Qed.

Lemma fill_image_rgba (img : Image) : mode img = RGBA -> fill_image img = img.
Proof. intros H. unfold fill_image. by rewrite H. Qed.

Lemma getpixel_convert_rgba (img : Image) (p : Z * Z) :
  getpixel (convert_rgba img) p = px_to_rgba <$> getpixel img p.
Proof.
  unfold getpixel, pixel_get, convert_rgba. simpl.
  destruct (in_bounds _ _ _); [|done]. by rewrite list_lookup_fmap.
Qed.

(** A larger tolerance only adds pixels to the region. *)
Lemma region_mono (w h : Z) (px : list Pixel) (t1 t2 : Z)
    (target_color : Pixel) (start p : Z * Z) :
  t1 <= t2 ->
  region w h px t1 target_color start p ->
  region w h px t2 target_color start p.
Proof.
  intros Ht. induction 1 as [|p q Hreg IH Hadj Hf].
  - apply region_start.
  - apply (region_grow _ _ _ _ _ _ p q IH Hadj).
    apply fillable_spec. apply fillable_spec in Hf.
    destruct Hf as (Hb & c & Hc & Ha & Hr & Hg & Hbl).
    split; [done|]. exists c. repeat split; try done; lia.
Qed.

Section FillPixels.
Context {PF : PyFloat}.

(** The buffer a fill leaves when its seed is not fully transparent: the
    flag [b] says whether the pixel belongs to the region. *)
Lemma flood_fill_pixels (st : App) (l : loc) (img0 : Image)
    (start : Z * Z) (target_color : Pixel) :
  processed st = Some (l, img0) -> image_ok img0 ->
  in_bounds (width img0) (height img0) start = true ->
  getpixel (fill_image img0) start = Some target_color ->
  is_transparent target_color = false ->
  0 <= magic_wand_tolerance st ->
  exists st' px,
    flood_fill_transparent st start = Ok st' /\
    processed st' =
      Some (fill_loc st l img0, with_data (fill_image img0) px) /\
    edit_history st' = history_push (edit_history st) (length (heap st)) /\
    status_label st' = Removed (alpha_changes (data (fill_image img0)) px) /\
    (forall p c,
       in_bounds (width img0) (height img0) p = true ->
       getpixel (fill_image img0) p = Some c ->
       exists b : bool,
         (b = true <->
          region (width img0) (height img0) (data (fill_image img0))
            (magic_wand_tolerance st) target_color start p) /\
         pixel_get (width img0) (height img0) px p =
           Some (if b then cleared c else c)).
Proof.
  intros Hp Hok Hin Hseed Hopaque Htol.
  destruct (fill_image_facts img0) as (Hmode & Hw & Hh).
  destruct (flood_fill_opaque_seed st l img0 start target_color Hp Hok Hin
              Hseed Hopaque)
    as (s & st' & Hrun & Hinv & Hq & Hres & Hp' & Hhist & Hsnap & Hstatus).
  pose proof (fill_image_ok img0 Hok) as (_ & _ & Hsize).
  rewrite Hw, Hh in Hsize.
  assert (Hfs : fillable (width img0) (height img0) (data (fill_image img0))
                  (magic_wand_tolerance st) target_color start = true).
  { unfold fillable. unfold getpixel in Hseed. rewrite Hw, Hh in Hseed.
    rewrite Hin, Hseed, Hopaque. simpl. by apply color_matches_refl. }
  exists st', (pixels s).
  split; [done|]. split; [done|]. split; [done|]. split.
  { rewrite Hstatus. f_equal. apply (inv_count _ _ _ _ _ _ _ Hinv). }
  intros p c Hb Hc. unfold getpixel in Hc. rewrite Hw, Hh in Hc.
  exists (bool_decide (p ∈ visited s)
          && fillable (width img0) (height img0) (data (fill_image img0))
               (magic_wand_tolerance st) target_color p).
  split.
  - split.
    + intros [Hv Hf]%andb_prop. apply bool_decide_eq_true in Hv.
      by apply (inv_sound _ _ _ _ _ _ _ Hinv).
    + intros Hreg.
      destruct (region_visited _ _ _ _ _ _ Hsize Hin s p Hinv Hq Hfs Hreg)
        as [Hv Hf].
      rewrite bool_decide_eq_true_2 by done. by rewrite Hf.
  - rewrite (inv_pixels _ _ _ _ _ _ _ Hinv) by done. rewrite Hc.
    by destruct (_ && _).
Qed.




End FillPixels.

(* ===================================================================== *)
(** ** Sessions *)
(* ===================================================================== *)

Section SessionFacts.
Context {PF : PyFloat}.
Variable AI_AVAILABLE : bool.
Variable bg_remove : Image -> option Image.
Variable resize : Image -> Z -> Z -> Image.
Variable fsub : pyfloat -> pyfloat -> pyfloat.

Local Abbreviation process := (process_image AI_AVAILABLE bg_remove resize).
Local Abbreviation preview := (update_preview AI_AVAILABLE bg_remove resize).
Local Abbreviation step := (step AI_AVAILABLE bg_remove resize fsub).

Lemma same_objects_refl (st : App) : same_objects st st.
Proof. by unfold same_objects. Qed.

Lemma session_ok_keep (st st' : App) :
  heap st' = heap st -> processed_image st' = processed_image st ->
  edit_history st' = edit_history st ->
  session_ok st -> session_ok st'.
Proof.
  intros Hh Hl He. unfold session_ok, refs_ok. by rewrite Hh, Hl, He.
Qed.

Lemma cache_ok_keep (st st' : App) :
  original_image st' = original_image st ->
  bg_removed_cache st' = bg_removed_cache st ->
  cache_ok bg_remove st -> cache_ok bg_remove st'.
Proof. intros Ho Hc. unfold cache_ok. by rewrite Ho, Hc. Qed.

Lemma same_objects_session (st st' : App) :
  same_objects st st' -> session_ok st -> session_ok st'.
Proof. intros (Hh & Hl & He & _ & _). by apply session_ok_keep. Qed.

Lemma same_objects_cache (st st' : App) :
  same_objects st st' -> cache_ok bg_remove st -> cache_ok bg_remove st'.
Proof. intros (_ & _ & _ & Ho & Hc). by apply cache_ok_keep. Qed.

Lemma update_dimensions_from_scale_same (st : App) :
  same_objects st (update_dimensions_from_scale st).
Proof.
  unfold update_dimensions_from_scale, same_objects.
  destruct (original_image st) eqn:Ho; [|done].
  by destruct (updating_dimensions st).
Qed.

Lemma on_scale_entry_same (st : App) : same_objects st (on_scale_entry st).
Proof.
  unfold on_scale_entry. destruct (scale_entry st); [|apply same_objects_refl].
  match goal with
  | |- same_objects _ (update_dimensions_from_scale ?s) =>
      destruct (update_dimensions_from_scale_same s) as (?&?&?&?&?)
  end.
  unfold same_objects. repeat split; etrans; try eassumption; reflexivity.
Qed.

Lemma on_scale_change_same (value : pyfloat) (st : App) :
  same_objects st (on_scale_change value st).
Proof.
  unfold on_scale_change.
  match goal with
  | |- same_objects _ (update_dimensions_from_scale ?s) =>
      destruct (update_dimensions_from_scale_same s) as (?&?&?&?&?)
  end.
  unfold same_objects. repeat split; etrans; try eassumption; reflexivity.
Qed.

Lemma on_width_change_same (st : App) : same_objects st (on_width_change st).
Proof.
  unfold on_width_change, same_objects.
  destruct (original_image st) eqn:Ho; [|done].
  destruct (updating_dimensions st); [done|].
  destruct (width_entry st); [|done].
  destruct (fle _ _); [done|]. simpl.
  by destruct (lock_aspect_ratio st).
Qed.

Lemma on_height_change_same (st : App) : same_objects st (on_height_change st).
Proof.
  unfold on_height_change, same_objects.
  destruct (original_image st) eqn:Ho; [|done].
  destruct (updating_dimensions st); [done|].
  destruct (height_entry st); [|done].
  destruct (fle _ _); [done|]. simpl.
  by destruct (lock_aspect_ratio st).
Qed.

(** [process_image] allocates nothing and moves no reference; it gives an
    image as soon as there is an original, and what it writes to the cache
    is the backend's answer for the original. *)
Lemma process_image_keeps (st : App) (orig : Image) :
  original_image st = Some orig ->
  exists st2 img,
    process st = (st2, Some img) /\
    heap st2 = heap st /\ processed_image st2 = processed_image st /\
    edit_history st2 = edit_history st /\
    original_image st2 = original_image st /\
    processing st2 = processing st /\
    (cache_ok bg_remove st -> cache_ok bg_remove st2).
Proof.
  intros Ho. unfold process_image. rewrite Ho.
  destruct (remove_background st).
  - destruct (Method_eqb (bg_removal_method st) ai && AI_AVAILABLE).
    + unfold remove_background_ai.
      destruct (negb AI_AVAILABLE).
      { eexists _, _. split; [reflexivity|]. by repeat split. }
      destruct (bg_removed_cache st) as [cached|] eqn:Hc.
      { eexists _, _. split; [reflexivity|]. by repeat split. }
      destruct (bg_remove orig) as [res|] eqn:Hbg.
      * eexists _, _. split; [reflexivity|]. simpl.
        repeat split; try done;
          intros _ cached; simpl; intros [= <-]; by exists orig.
      * eexists _, _. split; [reflexivity|]. simpl.
        repeat split; try done;
          intros _ cached; simpl; by rewrite Hc.
    + eexists _, _. split; [reflexivity|]. by repeat split.
  - eexists _, _. split; [reflexivity|]. by repeat split.
Qed.

(** [update_preview] either returns at once or makes the result of
    [process_image] the live buffer, a new object, and empties the
    history. *)
Lemma update_preview_session (st : App) :
  session_ok st -> session_ok (preview st).
Proof.
  intros Hs. unfold update_preview.
  destruct (original_image st) as [orig|] eqn:Ho; [|done].
  destruct (processing st); [done|].
  destruct (process_image_keeps
              (set_edit_history [] (set_processing true st)) orig Ho)
    as (st2 & img & Hrun & Hh & _ & _ & _ & _ & _).
  rewrite Hrun. right. exists (length (heap st2)). simpl.
  split; [done|]. split; [rewrite length_app; simpl; lia|].
  assert (He : edit_history st2 = []).
  { pose proof (process_image_keeps
                  (set_edit_history [] (set_processing true st)) orig Ho)
      as (st2' & img' & Hrun' & _ & _ & He & _).
    rewrite Hrun in Hrun'. by injection Hrun' as <- _. }
  rewrite He. split; [apply not_elem_of_nil|].
  split; [apply NoDup_nil_2|apply Forall_nil_2].
Qed.

Lemma update_preview_cache (st : App) :
  cache_ok bg_remove st -> cache_ok bg_remove (preview st).
Proof.
  intros Hc. unfold update_preview.
  destruct (original_image st) as [orig|] eqn:Ho; [|done].
  destruct (processing st); [done|].
  destruct (process_image_keeps
              (set_edit_history [] (set_processing true st)) orig Ho)
    as (st2 & img & Hrun & _ & _ & _ & Ho2 & _ & Hc2).
  rewrite Hrun. specialize (Hc2 Hc). exact Hc2.
Qed.

(** With the history emptied, the references are in order whatever the
    live buffer is. *)
Lemma session_ok_clear (st st' : App) :
  session_ok st -> heap st' = heap st ->
  processed_image st' = processed_image st -> edit_history st' = [] ->
  session_ok st'.
Proof.
  intros [[Hn _]|(l & Hl & Hlt & _)] Hh Hp He.
  - left. by rewrite Hp.
  - right. exists l. rewrite Hp, Hh, He. split; [done|]. split; [done|].
    split; [apply not_elem_of_nil|].
    split; [apply NoDup_nil_2|apply Forall_nil_2].
Qed.

Lemma act_session (a : Action) (st : App) :
  session_ok st -> session_ok (act AI_AVAILABLE bg_remove resize a st).
Proof.
  intros Hs. destruct a as [e|text|text|  |opened|  |value]; simpl.
  7: by apply (session_ok_keep st).
  6: by apply (session_ok_keep st).
  - unfold handle. destruct e; simpl;
      try (apply update_preview_session;
           by apply (session_ok_keep st)).
    + by apply (session_ok_keep st).
    + by apply (session_ok_keep st).
    + eapply same_objects_session; [apply on_scale_change_same|].
      by apply (session_ok_keep st).
    + eapply same_objects_session; [apply on_scale_entry_same|].
      by apply (session_ok_keep st).
  - eapply same_objects_session; [apply on_width_change_same|].
    by apply (session_ok_keep st).
  - eapply same_objects_session; [apply on_height_change_same|].
    by apply (session_ok_keep st).
  - destruct Hs as [[Hn He]|Hrefs].
    + left. unfold undo_edit. by rewrite He.
    + destruct (edit_history st) as [|x rest _] eqn:He using rev_ind.
      * right. unfold undo_edit. by rewrite He.
      * right. by apply (undo_edit_refs st rest x).
  - unfold load_image. destruct opened as [img|]; [|done].
    cbv zeta. simpl.
    destruct (dpi st =? 0).
    + by apply (session_ok_clear st).
    + apply update_preview_session. by apply (session_ok_clear st).
Qed.

Lemma act_cache (a : Action) (st : App) :
  cache_ok bg_remove st ->
  cache_ok bg_remove (act AI_AVAILABLE bg_remove resize a st).
Proof.
  intros Hc. destruct a as [e|text|text|  |opened|  |value]; simpl.
  7: by apply (cache_ok_keep st).
  6: by apply (cache_ok_keep st).
  - unfold handle. destruct e; simpl;
      try (apply update_preview_cache;
           by apply (cache_ok_keep st)).
    + intros cached. simpl. discriminate.
    + by apply (cache_ok_keep st).
    + eapply same_objects_cache; [apply on_scale_change_same|].
      by apply (cache_ok_keep st).
    + eapply same_objects_cache; [apply on_scale_entry_same|].
      by apply (cache_ok_keep st).
  - eapply same_objects_cache; [apply on_width_change_same|].
    by apply (cache_ok_keep st).
  - eapply same_objects_cache; [apply on_height_change_same|].
    by apply (cache_ok_keep st).
  - unfold undo_edit. destruct (history_pop _) as [[x rest]|]; [|done].
    by apply (cache_ok_keep st).
  - unfold load_image. destruct opened as [img|]; [|done].
    cbv zeta. simpl.
    assert (Hnone : forall st', bg_removed_cache st' = None ->
                      cache_ok bg_remove st').
    { intros st' Hn cached. by rewrite Hn. }
    destruct (dpi st =? 0).
    + by apply Hnone.
    + apply update_preview_cache. by apply Hnone.
Qed.

(** A click that returns did nothing or was a flood fill. *)
Lemma on_canvas_click_cases magic_wand_mode canvas_width canvas_height
    canvas_x canvas_y (st st' : App) :
  on_canvas_click fsub magic_wand_mode canvas_width canvas_height
    canvas_x canvas_y st = Ok st' ->
  st' = st \/
  exists l img0 p,
    processed st = Some (l, img0) /\
    in_bounds (width img0) (height img0) p = true /\
    flood_fill_transparent st p = Ok st'.
Proof.
  unfold on_canvas_click. destruct (negb magic_wand_mode).
  { intros [= <-]. by left. }
  destruct (processed_image st) as [l|] eqn:Hl; [|intros [= <-]; by left].
  unfold canvas_to_image_coords.
  destruct (processed st) as [[l' img0]|] eqn:Hp; [|intros [= <-]; by left].
  cbv zeta.
  match goal with
  | |- context [if ?c then None else Some (?x, ?y)] =>
      destruct c eqn:Hout; [intros [= <-]; by left|];
      intros Hrun; right; exists l', img0, (x, y)
  end.
  split; [done|]. split; [|done].
  unfold in_bounds. simpl.
  repeat (apply orb_false_elim in Hout as [Hout ?]).
  lia.
Qed.

Lemma step_session (st st' : App) :
  step st st' -> session_ok st -> session_ok st'.
Proof.
  intros [a st0|m cw ch x y st0 st0' Hclick] Hs.
  - by apply act_session.
  - destruct (on_canvas_click_cases _ _ _ _ _ _ _ Hclick)
      as [->|(l & img0 & p & Hp & _ & Hrun)]; [done|].
    destruct Hs as [[Hn _]|Hrefs].
    + destruct (processed_inv _ _ _ Hp) as [Hl _]. by rewrite Hl in Hn.
    + right. by destruct (flood_fill_refs st0 l img0 p st0' Hrefs Hp Hrun).
Qed.

Lemma step_cache (st st' : App) :
  step st st' -> cache_ok bg_remove st -> cache_ok bg_remove st'.
Proof.
  intros [a st0|m cw ch x y st0 st0' Hclick] Hc.
  - by apply act_cache.
  - destruct (on_canvas_click_cases _ _ _ _ _ _ _ Hclick)
      as [->|(l & img0 & p & Hp & _ & Hrun)]; [done|].
    destruct (flood_fill_cases st0 l img0 p st0' Hp Hrun)
      as (_ & Ho & Hca & _).
    unfold cache_ok. by rewrite Ho, Hca.
Qed.

(** X8.  The references stay in order.  A session that starts with its
    references in order (no image and an empty history, or a live buffer
    and snapshots that are distinct objects of the heap) keeps them in
    order through every sequence of actions and clicks: no snapshot ever
    is the live buffer or another snapshot, none dangles. *)
Theorem session_references (st st' : App) :
  session_ok st -> rtc step st st' -> session_ok st'.
Proof.
  intros Hs Hrun. induction Hrun as [|st st1 st2 Hstep _ IH]; [done|].
  apply IH. by apply (step_session st).
Qed.

(** The image [process_image] returns does not depend on the cache, as
    long as the cache holds the backend's answer for the original. *)
Lemma process_image_cache (st : App) :
  cache_ok bg_remove st ->
  snd (process st) = snd (process (set_bg_removed_cache None st)).
Proof.
  intros Hc. unfold process_image. simpl.
  destruct (original_image st) as [orig|] eqn:Ho; [|done].
  destruct (remove_background st); [|done].
  destruct (Method_eqb (bg_removal_method st) ai && AI_AVAILABLE); [|done].
  unfold remove_background_ai. simpl.
  destruct (negb AI_AVAILABLE); [done|].
  destruct (bg_removed_cache st) as [cached|] eqn:Hca.
  - destruct (Hc cached Hca) as (orig' & Ho' & Hbg).
    rewrite Ho in Ho'. injection Ho' as <-. by rewrite Hbg.
  - by destruct (bg_remove orig).
Qed.


End SessionFacts.

(* ===================================================================== *)
(** ** The click handler and the loader *)
(* ===================================================================== *)

Section ClickAndLoad.
Context {PF : PyFloat}.
Variable AI_AVAILABLE : bool.
Variable bg_remove : Image -> option Image.
Variable resize : Image -> Z -> Z -> Image.
Variable fsub : pyfloat -> pyfloat -> pyfloat.

Local Abbreviation process := (process_image AI_AVAILABLE bg_remove resize).
Local Abbreviation load := (load_image AI_AVAILABLE bg_remove resize).
Local Abbreviation fit := (fit_target resize).


(** X11.  Loading an image.  With a dpi other than 0 and no reprocessing
    in flight, [load_image] on a file that opens makes it the original,
    empties the cache and the history, sets the scale to 1 and the size in
    inches to the pixel size over the dpi rounded to two decimals, and
    makes the live buffer a new object: the image [process_image] gives
    for the new state, which without background removal is the original
    resized to the target size.  The objects of the old heap are as they
    were, and an undo right after the load does nothing. *)
Theorem load_image_fresh (img : Image) (st : App) :
  dpi st <> 0 -> processing st = false ->
  let st' := load (Some img) st in
  original_image st' = Some img /\
  edit_history st' = [] /\
  scale_factor st' = of_int 1 /\
  width_inches st' = py_round (fdiv (of_int (width img)) (of_int (dpi st))) 2 /\
  height_inches st' =
    py_round (fdiv (of_int (height img)) (of_int (dpi st))) 2 /\
  dpi st' = dpi st /\
  (exists out,
     processed st' = Some (length (heap st), out) /\
     heap st' = heap st ++ [out] /\
     (remove_background st = false -> out = fit st' img) /\
     (remove_background st = true ->
      bg_removal_method st = threshold \/ AI_AVAILABLE = false ->
      out = fit st' (remove_white_background (white_threshold st) img))) /\
  undo_edit st' = st'.
Proof.
  intros Hdpi Hproc. unfold load_image. cbv zeta. simpl.
  destruct (dpi st =? 0) eqn:E; [apply Z.eqb_eq in E; done|].
  unfold update_preview. simpl. rewrite Hproc.
  match goal with
  | |- context [process_image _ _ _ ?s] => set (st1 := s)
  end.
  destruct (process_image_facts AI_AVAILABLE bg_remove resize st1 img eq_refl)
    as (st2 & out & Hrun & Hheap & Hhist & Hoff & Hon).
  destruct (process_image_keeps AI_AVAILABLE bg_remove resize st1 img eq_refl)
    as (st2' & out' & Hrun' & _ & _ & _ & Ho2 & _).
  rewrite Hrun in Hrun'. injection Hrun' as <- <-.
  assert (Hsame : scale_factor st2 = of_int 1 /\
                  width_inches st2 = width_inches st1 /\
                  height_inches st2 = height_inches st1 /\
                  dpi st2 = dpi st1).
  { revert Hrun. unfold process_image, st1. simpl.
    destruct (remove_background st).
    - destruct (Method_eqb (bg_removal_method st) ai && AI_AVAILABLE).
      + unfold remove_background_ai. destruct (negb AI_AVAILABLE); simpl.
        { by intros [= <- _]. }
        destruct (bg_remove img); simpl; by intros [= <- _].
      + by intros [= <- _].
    - by intros [= <- _]. }
  destruct Hsame as (Hs & Hw & Hh & Hd).
  rewrite Hrun. simpl.
  split; [done|]. split; [done|]. split; [done|]. split; [done|].
  split; [done|]. split; [done|]. split.
  - assert (Hheap' : heap st2 = heap st) by (rewrite Hheap; reflexivity).
    exists out. rewrite Hheap'. split.
    + apply processed_Some; simpl; [done|].
      by rewrite list_lookup_middle.
    + split; [done|]. split.
      * intros Hrb. rewrite Hoff by done. unfold fit_target. simpl.
        by rewrite Hw, Hh, Hd.
      * intros Hrb Hm. rewrite Hon by done. unfold fit_target. simpl.
        by rewrite Hw, Hh, Hd.
  - unfold undo_edit. simpl. by rewrite Hhist.
Qed.


End ClickAndLoad.

(* ===================================================================== *)
(** ** The checkerboard *)
(* ===================================================================== *)

(** [range(0, stop, step)] for a positive step: the multiples of [step]
    from 0 up to [stop], [stop] excluded. *)
Lemma elem_of_py_range (stop step v : Z) :
  0 < step ->
  v ∈ py_range 0 stop step <-> exists i, 0 <= i /\ v = i * step /\ v < stop.
Proof.
  intros Hstep. unfold py_range.
  destruct (0 <? step) eqn:E; [|apply Z.ltb_ge in E; lia].
  rewrite list_elem_of_fmap. split.
  - intros (i & -> & Hi). apply elem_of_seqZ in Hi. exists i.
    split; [lia|]. split; [lia|].
    destruct (Z_lt_le_dec (i * step) stop) as [|Hge]; [lia|].
    assert ((stop - 0 + step - 1) / step <= i); [|lia].
    apply Z.lt_succ_r, Z.div_lt_upper_bound; [done|]. nia.
  - intros (i & Hi & -> & Hlt). exists i. split; [lia|].
    apply elem_of_seqZ. split; [lia|].
    assert (i + 1 <= (stop - 0 + step - 1) / step); [|lia].
    apply Z.div_le_lower_bound; [done|]. nia.
Qed.

Lemma elem_of_py_range_1 (stop v : Z) :
  v ∈ py_range 0 stop 1 <-> 0 <= v < stop.
Proof.
  rewrite elem_of_py_range by lia. split.
  - intros (i & Hi & -> & Hlt). lia.
  - intros Hv. exists v. lia.
Qed.

Lemma for_each_app {A S : Type} (body : A -> S -> result S) (l1 l2 : list A)
    (s : S) :
  for_each body (l1 ++ l2) s =
  match for_each body l1 s with
  | Ok s' => for_each body l2 s'
  | Err e => Err e
  end.
Proof.
  revert s. induction l1 as [|a l1 IH]; intros s; simpl; [done|].
  destruct (body a s); [apply IH|done].
Qed.

Lemma for_each_ext {A S : Type} (body1 body2 : A -> S -> result S)
    (l : list A) (s : S) :
  (forall a s, body1 a s = body2 a s) ->
  for_each body1 l s = for_each body2 l s.
Proof.
  intros Hext. revert s. induction l as [|a l IH]; intros s; simpl; [done|].
  rewrite Hext. destruct (body2 a s); [apply IH|done].
Qed.

(** A loop over a list built by a nested comprehension is the nest of
    loops. *)
Lemma for_each_bind {A B S : Type} (f : A -> list B)
    (body : B -> S -> result S) (l : list A) (s : S) :
  for_each body (l ≫= f) s = for_each (fun a => for_each body (f a)) l s.
Proof.
  revert s. induction l as [|a l IH]; intros s; [done|].
  rewrite bind_cons, for_each_app. simpl.
  destruct (for_each body (f a) s); [apply IH|done].
Qed.

Lemma for_each_singleton {A S : Type} (body : A -> S -> result S) (a : A)
    (s : S) :
  for_each body [a] s = body a s.
Proof. simpl. by destruct (body a s). Qed.

(** The four loops of [create_checkerboard] make the calls listed by
    [checker_writes], in that order. *)
Lemma create_checkerboard_writes (width height square_size : Z) :
  create_checkerboard (width, height) square_size =
  for_each (fun w => putpixel (fst w) (snd w))
    (checker_writes width height square_size) (image_new_rgb width height).
Proof.
  unfold create_checkerboard, checker_writes. simpl fst. simpl snd.
  cbv zeta. symmetry.
  rewrite for_each_bind. apply for_each_ext. intros y s.
  rewrite for_each_bind. apply for_each_ext. intros x s'.
  rewrite for_each_bind. apply for_each_ext. intros dy s''.
  rewrite for_each_bind. apply for_each_ext. intros dx s'''.
  rewrite for_each_singleton. reflexivity.
Qed.

(** Every call is inside the image and writes the colour of its square. *)
Lemma checker_writes_sound (width height square_size : Z) (p : Z * Z)
    (c : Pixel) :
  0 < square_size ->
  (p, c) ∈ checker_writes width height square_size ->
  in_bounds width height p = true /\ c = checker_color square_size p.
Proof.
  intros Hsq. unfold checker_writes.
  intros (y & Hin & Hy)%list_elem_of_bind.
  apply list_elem_of_bind in Hin as (x & Hin & Hx).
  apply list_elem_of_bind in Hin as (dy & Hin & Hdy).
  apply list_elem_of_bind in Hin as (dx & Hin & Hdx).
  apply list_elem_of_singleton in Hin. injection Hin as -> ->.
  apply elem_of_py_range in Hy as (j & Hj & -> & Hjlt); [|done].
  apply elem_of_py_range in Hx as (i & Hi & -> & Hilt); [|done].
  apply elem_of_py_range_1 in Hdy. apply elem_of_py_range_1 in Hdx.
  split.
  - apply in_bounds_spec. simpl. lia.
  - unfold checker_color. simpl.
    rewrite !Z.div_mul by lia.
    replace ((i * square_size + dx) / square_size) with i.
    2: { apply (Z.div_unique _ _ i dx); lia. }
    replace ((j * square_size + dy) / square_size) with j.
    2: { apply (Z.div_unique _ _ j dy); lia. }
    reflexivity.
Qed.

(** Every pixel of the image is written. *)
Lemma checker_writes_complete (width height square_size : Z) (p : Z * Z) :
  0 < square_size ->
  in_bounds width height p = true ->
  p ∈ fst <$> checker_writes width height square_size.
Proof.
  intros Hsq Hin. apply in_bounds_spec in Hin as [Hx Hy].
  destruct p as [px py]. simpl in Hx, Hy.
  pose proof (Z.div_mod px square_size ltac:(lia)) as Hdx.
  pose proof (Z.mod_pos_bound px square_size Hsq) as Hmx.
  pose proof (Z.div_mod py square_size ltac:(lia)) as Hdy.
  pose proof (Z.mod_pos_bound py square_size Hsq) as Hmy.
  assert (0 <= px / square_size) by (apply Z.div_pos; lia).
  assert (0 <= py / square_size) by (apply Z.div_pos; lia).
  apply list_elem_of_fmap.
  eexists ((px, py), _). split; [reflexivity|].
  unfold checker_writes.
  apply list_elem_of_bind. exists (py / square_size * square_size). split.
  2: { apply elem_of_py_range; [done|]. exists (py / square_size). lia. }
  apply list_elem_of_bind. exists (px / square_size * square_size). split.
  2: { apply elem_of_py_range; [done|]. exists (px / square_size). lia. }
  apply list_elem_of_bind. exists (py mod square_size). split.
  2: { apply elem_of_py_range_1. lia. }
  apply list_elem_of_bind. exists (px mod square_size). split.
  2: { apply elem_of_py_range_1. lia. }
  replace (px / square_size * square_size + px mod square_size) with px by lia.
  replace (py / square_size * square_size + py mod square_size) with py by lia.
  apply list_elem_of_here.
Qed.

(** A run of [putpixel] calls that are all inside the image and all write
    the colour [f] gives their position: no call raises, and afterwards a
    pixel that was written has the colour [f] gives it, any other pixel is
    as before. *)
Lemma for_each_putpixel (f : Z * Z -> Pixel) (writes : list ((Z * Z) * Pixel)) :
  forall img : Image,
  Z.of_nat (length (data img)) = width img * height img ->
  (forall p c, (p, c) ∈ writes ->
     in_bounds (width img) (height img) p = true /\ c = f p) ->
  exists img',
    for_each (fun w => putpixel (fst w) (snd w)) writes img = Ok img' /\
    mode img' = mode img /\ width img' = width img /\
    height img' = height img /\
    Z.of_nat (length (data img')) = width img * height img /\
    forall p, in_bounds (width img) (height img) p = true ->
      getpixel img' p =
        if bool_decide (p ∈ fst <$> writes) then Some (f p) else getpixel img p.
Proof.
  induction writes as [|[q c] writes IH]; intros img Hsize Hw.
  - exists img. simpl. repeat split; try done.
  - destruct (Hw q c) as [Hq ->]; [apply list_elem_of_here|].
    simpl. unfold putpixel at 1. simpl.
    rewrite pixel_set_in_bounds by done.
    set (img1 := {| mode := mode img; width := width img;
                    height := height img;
                    data := <[px_index (width img) q := f q]> (data img) |}).
    destruct (IH img1) as (img' & Hrun & Hm & Hwd & Hh & Hlen & Hpix).
    { simpl. by rewrite length_insert. }
    { intros p c Hin. apply Hw. by apply list_elem_of_further. }
    exists img'. split; [done|]. split; [done|]. split; [done|].
    split; [done|]. split; [done|].
    intros p Hp. rewrite (Hpix p Hp).
    change (list_fmap _ _ fst writes) with (fst <$> writes).
    repeat case_bool_decide;
      repeat match goal with
             | H : _ ∈ _ :: _ |- _ => apply elem_of_cons in H
             | H : ~ (_ ∈ _ :: _) |- _ => rewrite elem_of_cons in H
             end.
    + done.
    + exfalso. naive_solver.
    + assert (p = q) as -> by naive_solver.
      unfold getpixel, img1. simpl. by apply pixel_get_insert_eq.
    + unfold getpixel, img1. simpl. apply pixel_get_insert_ne; [done..|].
      naive_solver.
Qed.

(** X13.  The checkerboard.  For a size that is not negative and a
    positive square size, [create_checkerboard] returns, with no
    [putpixel] outside the image, an RGB image of that size in which the
    pixel (x, y) is light grey (200, 200, 200) when [x // square_size +
    y // square_size] is even and white otherwise; the squares cut by the
    right and the bottom edge included. *)
Theorem create_checkerboard_pattern (w h square_size : Z) :
  0 <= w -> 0 <= h -> 0 < square_size ->
  exists img,
    create_checkerboard (w, h) square_size = Ok img /\
    mode img = RGB /\ width img = w /\ height img = h /\
    Z.of_nat (length (data img)) = w * h /\
    forall p, in_bounds w h p = true ->
      getpixel img p = Some (checker_color square_size p).
Proof.
  intros Hw Hh Hsq. rewrite create_checkerboard_writes.
  destruct (for_each_putpixel (checker_color square_size)
              (checker_writes w h square_size) (image_new_rgb w h))
    as (img & Hrun & Hm & Hwd & Hht & Hlen & Hpix).
  { simpl. rewrite length_replicate. lia. }
  { intros p c Hin. simpl. by apply checker_writes_sound. }
  exists img. split; [done|]. split; [done|]. split; [done|].
  split; [done|]. split; [done|].
  intros p Hp. rewrite (Hpix p Hp).
  by rewrite bool_decide_eq_true_2 by (by apply checker_writes_complete).
Qed.

Lemma create_checkerboard_pattern_witness :
  exists img,
    create_checkerboard (25, 12) 10 = Ok img /\
    mode img = RGB /\ width img = 25 /\ height img = 12 /\
    Z.of_nat (length (data img)) = 25 * 12 /\
    forall p, in_bounds 25 12 p = true ->
      getpixel img p = Some (checker_color 10 p).
Proof. apply (create_checkerboard_pattern 25 12 10); lia. Defined.

(* ===================================================================== *)
(** ** Examples on doubles *)
(* ===================================================================== *)

Section SessionExamples.
#[local] Existing Instance binary64.

Lemma sample_image_ok : image_ok sample_image.
Proof. unfold image_ok; simpl; lia. Qed.

Lemma sample_rgb_ok : image_ok sample_rgb.
Proof. unfold image_ok; simpl; lia. Qed.




Lemma session_references_witness :
  session_ok
    (act false no_backend resize_nearest Undo
       (act false no_backend resize_nearest (Load (Some sample_rgb))
          sample_edited)).
Proof.
  apply (session_references false no_backend resize_nearest b64_sub
           sample_edited).
  - right. exact sample_edited_refs.
  - eapply rtc_l; [apply step_act|]. apply rtc_once, step_act.
Defined.



Lemma load_image_fresh_witness :
  let st' := load_image false no_backend resize_nearest (Some sample_rgb)
               sample_edited in
  original_image st' = Some sample_rgb /\
  edit_history st' = [] /\
  undo_edit st' = st'.
Proof.
  pose proof (load_image_fresh false no_backend resize_nearest sample_rgb
                sample_edited ltac:(simpl; lia) eq_refl) as H.
  cbv zeta in H. destruct H as (Ho & He & _ & _ & _ & _ & _ & Hu).
  cbv zeta. split; [exact Ho|]. split; [exact He|exact Hu].
Defined.


End SessionExamples.

(* ===================================================================== *)
(** ** The click mapping in exact arithmetic *)
(* ===================================================================== *)

(** [int(x)] of a rational that is not negative is its floor. *)
Lemma Q_int_floor (q : Q) : (0 <= q)%Q -> Q_int q = Qfloor q.
Proof.
  destruct q as [n d]. unfold Qle, Q_int, Qfloor. simpl. intros H.
  apply Z.quot_div_nonneg; lia.
Qed.

Lemma Q_int_bounds (q : Q) (n : Z) :
  (0 <= q)%Q -> (q < inject_Z n)%Q -> 0 <= Q_int q < n.
Proof.
  intros H0 Hn. rewrite Q_int_floor by done. split.
  - change 0 with (Qfloor 0). by apply Qfloor_resp_le.
  - rewrite Zlt_Qlt. eapply Qle_lt_trans; [apply Qfloor_le|done].
Qed.

Lemma Q_int_le (q : Q) (n : Z) :
  (0 <= q)%Q -> (q <= inject_Z n)%Q -> 0 <= Q_int q <= n.
Proof.
  intros H0 Hn. rewrite Q_int_floor by done. split.
  - change 0 with (Qfloor 0). by apply Qfloor_resp_le.
  - rewrite Zle_Qle. eapply Qle_trans; [apply Qfloor_le|done].
Qed.

Section ExactPreview.
#[local] Existing Instance exactQ.

(** [min(a, b, c)] on rationals. *)
Lemma py_min3_exact (a b c : Q) :
  (py_min3 a b c <= a)%Q /\ (py_min3 a b c <= b)%Q /\
  (py_min3 a b c <= c)%Q /\
  (py_min3 a b c = a \/ py_min3 a b c = b \/ py_min3 a b c = c).
Proof.
  unfold py_min3. simpl.
  destruct (Qle_bool a b) eqn:Eab; simpl;
    [apply Qle_bool_iff in Eab
    |assert (b < a)%Q
       by (apply Qnot_le_lt; intros H; apply Qle_bool_iff in H; congruence)].
  - destruct (Qle_bool a c) eqn:Eac; simpl;
      [apply Qle_bool_iff in Eac
      |assert (c < a)%Q
         by (apply Qnot_le_lt; intros H; apply Qle_bool_iff in H; congruence)].
    + repeat split; try lra. by left.
    + repeat split; try lra. by right; right.
  - destruct (Qle_bool b c) eqn:Ebc; simpl;
      [apply Qle_bool_iff in Ebc
      |assert (c < b)%Q
         by (apply Qnot_le_lt; intros H'; apply Qle_bool_iff in H'; congruence)].
    + repeat split; try lra. by right; left.
    + repeat split; try lra. by right; right.
Qed.

Lemma inject_Z_pos (n : Z) : 0 < n -> (0 < inject_Z n)%Q.
Proof. intros H. unfold Qlt. simpl. lia. Qed.

Lemma ratio_pos (c n : Z) :
  0 < c -> 0 < n -> (0 < inject_Z c / inject_Z n)%Q.
Proof.
  intros Hc Hn. apply Qlt_shift_div_l.
  - by apply inject_Z_pos.
  - rewrite Qmult_0_l. by apply inject_Z_pos.
Qed.

Lemma preview_scale_exact (canvas_width canvas_height : Z) (img : Image) :
  0 < width img -> 0 < height img ->
  0 < canvas_width -> 0 < canvas_height ->
  let s := preview_scale canvas_width canvas_height img in
  (0 < s)%Q /\ (s <= 1)%Q /\
  (s <= inject_Z canvas_width / inject_Z (width img))%Q /\
  (s <= inject_Z canvas_height / inject_Z (height img))%Q.
Proof.
  intros Hw Hh Hcw Hch s.
  pose proof (ratio_pos canvas_width (width img) Hcw Hw) as Ha.
  pose proof (ratio_pos canvas_height (height img) Hch Hh) as Hb.
  change s with (py_min3 (inject_Z canvas_width / inject_Z (width img))%Q
                   (inject_Z canvas_height / inject_Z (height img))%Q 1%Q).
  destruct (py_min3_exact (inject_Z canvas_width / inject_Z (width img))
              (inject_Z canvas_height / inject_Z (height img)) 1%Q)
    as (H1 & H2 & H3 & Hcase).
  split; [|done].
  destruct Hcase as [E|[E|E]]; rewrite E; [done|done|reflexivity].
Qed.

(** One axis of the preview: [n] pixels shown at scale [s] on [c] canvas
    units. *)
Lemma preview_axis (n c : Z) (s x : Q) :
  0 < n -> 0 < c -> (0 < s)%Q -> (s <= 1)%Q ->
  (s <= inject_Z c / inject_Z n)%Q ->
  let d := Q_int (inject_Z n * s) in
  let o := (c - d) / 2 in
  (0 <= d <= n /\ 0 <= o /\ o + d <= c) /\
  ((inject_Z o <= x < inject_Z (o + d))%Q ->
   0 <= Q_int ((x - inject_Z o) / s) < n).
Proof.
  intros Hn Hc Hs Hs1 Hsc d o.
  assert (Hn' : (0 < inject_Z n)%Q) by (by apply inject_Z_pos).
  assert (Hq0 : (0 <= inject_Z n * s)%Q) by (apply Qmult_le_0_compat; lra).
  assert (Hqn : (inject_Z n * s <= inject_Z n)%Q).
  { rewrite <- (Qmult_1_r (inject_Z n)) at 2.
    apply Qmult_le_l; done. }
  assert (Hqc : (inject_Z n * s <= inject_Z c)%Q).
  { eapply Qle_trans; [apply Qmult_le_l; [done|exact Hsc]|].
    rewrite Qmult_div_r; [apply Qle_refl|]. intros H. rewrite H in Hn'.
    by apply Qlt_irrefl in Hn'. }
  pose proof (Q_int_le _ n Hq0 Hqn) as Hdn.
  pose proof (Q_int_le _ c Hq0 Hqc) as Hdc.
  fold d in Hdn, Hdc.
  assert (Ho : 0 <= o) by (apply Z.div_pos; lia).
  assert (Ho2 : 2 * o <= c - d) by (apply Z.mul_div_le; lia).
  split; [lia|].
  intros [Hlo Hhi]. rewrite inject_Z_plus in Hhi.
  assert (Hdq : (inject_Z d <= inject_Z n * s)%Q).
  { unfold d. rewrite Q_int_floor by done. apply Qfloor_le. }
  apply Q_int_bounds.
  - apply Qle_shift_div_l; [done|]. lra.
  - apply Qlt_shift_div_r; [done|]. lra.
Qed.



End ExactPreview.
